(** * ProjectionLab investment updater: a shallow embedding of
      [projectionlab.py] and the properties checked against it.

    The development follows the script top-down: Python string primitives,
    number formatting, the account data model, the price pipeline
    ([get_crypto_prices], [get_cached_crypto_prices]), the balance
    calculator ([calculate_account_balances]), the MFA dialogue
    ([handle_mfa_code]) and the command loop of [update_projectionlab].

    Modelling conventions.
    - A Python number (an [int], or a [float] with its exact value) is a
      rational [Q]; sums and products are exact, the binary64 rounding of
      float arithmetic is outside the model.
    - A [dict] read by key is a [gmap]; a [dict] or list that is iterated
      is an association list or a list, in insertion order.
    - Logging, sleeping, HTTP requests and the cache file are effects on an
      explicit world that is passed along.  A log call is an event that
      carries the values its message interpolates; where rendering such a
      value can raise, the model raises.
    - Text the program builds and keeps is text: the update commands, and
      the dollar values in the lines of an account's summary. *)

From Stdlib Require Import QArith Lqa.
From stdpp Require Import gmap strings list fin_maps pretty.

Open Scope string_scope.

(** ** Python string primitives *)

Section PyStr.

(** [needle in hay] on [str]. *)
Fixpoint contains (needle hay : string) : bool :=
  String.prefix needle hay ||
  match hay with
  | EmptyString => false
  | String _ hay' => contains needle hay'
  end.

(** The scanning loop of [str.replace(old, new)] for a non-empty [old]:
    [skip] counts the characters of a match that are still to be dropped. *)
Fixpoint replace_scan (old new : string) (skip : nat) (s : string) : string :=
  match s with
  | EmptyString => EmptyString
  | String c s' =>
      match skip with
      | S k => replace_scan old new k s'
      | O =>
          if String.prefix old s
          then new ++ replace_scan old new (String.length old - 1) s'
          else String c (replace_scan old new 0 s')
      end
  end.

(** With an empty [old], [str.replace] puts [new] before every character
    and at the end. *)
Fixpoint replace_empty (new s : string) : string :=
  match s with
  | EmptyString => new
  | String c s' => new ++ String c (replace_empty new s')
  end.

Definition replace (old new s : string) : string :=
  match old with
  | EmptyString => replace_empty new s
  | _ => replace_scan old new 0 s
  end.

(** The scanning loop of [str.split(sep)]: [cur] is the piece being
    collected. *)
Fixpoint split_scan (sep : string) (skip : nat) (cur s : string) : list string :=
  match s with
  | EmptyString => [cur]
  | String c s' =>
      match skip with
      | S k => split_scan sep k cur s'
      | O =>
          if String.prefix sep s
          then cur :: split_scan sep (String.length sep - 1) EmptyString s'
          else split_scan sep 0 (cur ++ String c EmptyString) s'
      end
  end.

(** [s.split(sep)]; an empty separator raises [ValueError] ([None]). *)
Definition split (sep s : string) : option (list string) :=
  match sep with
  | EmptyString => None
  | _ => Some (split_scan sep 0 EmptyString s)
  end.

(** [sep.join(parts)]. *)
Fixpoint join (sep : string) (parts : list string) : string :=
  match parts with
  | [] => EmptyString
  | [p] => p
  | p :: ps => p ++ sep ++ join sep ps
  end.

End PyStr.

(** ** Numbers and their [.2f] rendering *)

Section Numbers.

Definition Qltb (x y : Q) : bool := negb (Qle_bool y x).

(** Nearest integer, ties to the even one: the rounding [format] applies
    to the exact value of the number. *)
Definition round_half_even (q : Q) : Z :=
  let d := Z.pos (Qden q) in
  let fl := (Qnum q / d)%Z in
  match (2 * (Qnum q mod d) ?= d)%Z with
  | Lt => fl
  | Gt => (fl + 1)%Z
  | Eq => if Z.even fl then fl else (fl + 1)%Z
  end.

Definition two_digits (n : Z) : string :=
  (if (n <? 10)%Z then "0" else "") ++ pretty (Z.to_N n).

(** [f"{q:.2f}"]: sign, integer part, point, two decimals. *)
Definition format_2f (q : Q) : string :=
  let cents := Z.abs (round_half_even (q * 100)) in
  (if Qltb q 0 then "-" else "")
    ++ pretty (Z.to_N (cents / 100)) ++ "." ++ two_digits (cents mod 100).

Definition three_digits (n : Z) : string :=
  (if (n <? 10)%Z then "00" else if (n <? 100)%Z then "0" else "")
    ++ pretty (Z.to_N n).

(** The digits of [n] in groups of three with commas between them;
    [groups] bounds the number of commas. *)
Fixpoint thousands (groups : nat) (n : Z) : string :=
  match groups with
  | O => pretty (Z.to_N n)
  | S groups' =>
      if (n <? 1000)%Z then pretty (Z.to_N n)
      else thousands groups' (n / 1000) ++ "," ++ three_digits (n mod 1000)
  end.

(** [f"{q:,.2f}"]: as [.2f], the integer part grouped by thousands. *)
Definition format_comma_2f (q : Q) : string :=
  let cents := Z.abs (round_half_even (q * 100)) in
  (if Qltb q 0 then "-" else "")
    ++ thousands (Z.to_nat (Z.log2 (cents / 100))) (cents / 100)
    ++ "." ++ two_digits (cents mod 100).

End Numbers.

(** ** Data model: the accounts of [accounts.yaml] *)

Record stock_holding := { symbol : string; shares : Q }.

(** [account['assets']]: the keys ['crypto'] and ['stock'] may each be
    missing.  The crypto mapping keeps the order of the YAML file. *)
Record assets := {
  crypto : option (list (string * Q));
  stock : option (list stock_holding)
}.

Record account := {
  account_id : string;
  account_name : string;
  account_assets : option assets
}.

Definition DEFAULT_CRYPTO_IDS : list string := ["bitcoin"; "ethereum"].

(** A price snapshot is a [gmap string (option Q)]: a key bound to [None]
    is an id whose price is Python's [None]. *)

(** ** [calculate_account_balances] *)

(** One entry of [assets_summary], a text in the source:
    [f"{crypto_id}: {amount} (${crypto_value:,.2f})"] and
    [f"{symbol}: {shares} shares (${stock_value:,.2f})"].  The model keeps
    the id and the quantity as they are interpolated and the value as the
    text [:,.2f] makes of it: the exact value is not in the line. *)
Inductive summary_line :=
| CryptoLine (crypto_id : string) (amount : Q) (crypto_value : string)
| StockLine (symbol : string) (shares : Q) (stock_value : string).

(** What [calculate_account_balances] sends to [logging]. *)
Inductive balance_log :=
| WarnCryptoPrice (crypto_id : string)
| WarnStockPrice (symbol : string)
| InfoAccount (name : string)
| InfoAsset (line : summary_line)
| InfoTotal (total_usd : Q).

(** The variables a pass of the per-account loop body updates. *)
Record tally := {
  total_usd : Q;
  assets_summary : list summary_line;
  tally_log : list balance_log
}.

Section BalanceCalculator.

Variable crypto_prices : gmap string (option Q).
Variable stock_prices : gmap string Q.
Variable pl_api_key : string.

(** Body of [for crypto_id, amount in crypto_assets.items()]. *)
Definition crypto_step (t : tally) (holding : string * Q) : tally :=
  let '(crypto_id, amount) := holding in
  match crypto_prices !! crypto_id with
  | Some (Some price) =>
      let crypto_value := (amount * price)%Q in
      if Qltb 0 crypto_value
      then {| total_usd := (total_usd t + crypto_value)%Q;
              assets_summary :=
                (assets_summary t
                   ++ [CryptoLine crypto_id amount (format_comma_2f crypto_value)])%list;
              tally_log := tally_log t |}
      else t
  | _ =>
      {| total_usd := total_usd t;
         assets_summary := assets_summary t;
         tally_log := (tally_log t ++ [WarnCryptoPrice crypto_id])%list |}
  end.

(** Body of [for stock in stock_assets]. *)
Definition stock_step (t : tally) (holding : stock_holding) : tally :=
  match stock_prices !! symbol holding with
  | Some price =>
      let stock_value := (shares holding * price)%Q in
      {| total_usd := (total_usd t + stock_value)%Q;
         assets_summary :=
           (assets_summary t
              ++ [StockLine (symbol holding) (shares holding)
                    (format_comma_2f stock_value)])%list;
         tally_log := tally_log t |}
  | None =>
      {| total_usd := total_usd t;
         assets_summary := assets_summary t;
         tally_log := (tally_log t ++ [WarnStockPrice (symbol holding)])%list |}
  end.

(** ['assets' in account and 'crypto' in account['assets']], then the
    loop over the holdings. *)
Definition crypto_pass (a : account) (t : tally) : tally :=
  match account_assets a with
  | Some h =>
      match crypto h with
      | Some crypto_assets => fold_left crypto_step crypto_assets t
      | None => t
      end
  | None => t
  end.

Definition stock_pass (a : account) (t : tally) : tally :=
  match account_assets a with
  | Some h =>
      match stock h with
      | Some stock_assets => fold_left stock_step stock_assets t
      | None => t
      end
  | None => t
  end.

(** The state of the account's variables when the command is formatted:
    [total_usd = 0], [assets_summary = []], then the two passes. *)
Definition account_tally (log : list balance_log) (a : account) : tally :=
  stock_pass a (crypto_pass a
    {| total_usd := 0; assets_summary := []; tally_log := log |}).

Definition update_command (id : string) (balance : Q) : string :=
  "window.projectionlabPluginAPI.updateAccount('" ++ id
    ++ "', { balance: " ++ format_2f balance
    ++ " }, { key: '" ++ pl_api_key ++ "' })".

(** Body of [for account in accounts], on the pair of [update_commands]
    and the log written so far. *)
Definition account_step (st : list string * list balance_log) (a : account)
  : list string * list balance_log :=
  let '(update_commands, log) := st in
  let t := account_tally log a in
  let command := update_command (account_id a) (total_usd t) in
  ((update_commands ++ [command])%list,
   (tally_log t ++ [InfoAccount (account_name a)]
      ++ map InfoAsset (assets_summary t) ++ [InfoTotal (total_usd t)])%list).

(** The function returns [update_commands]; the second component is what
    it has logged. *)
Definition calculate_account_balances (accounts : list account)
  : list string * list balance_log :=
  fold_left account_step accounts ([], []).

End BalanceCalculator.

(** ** The price pipeline: [get_crypto_prices] and its cache *)

(** What [int(response.headers.get('Retry-After', retry_delay))] meets:
    no such header, a header that [int] parses, or one it rejects with
    [ValueError] (an HTTP date, say). *)
Inductive retry_after_header :=
| RetryAfterAbsent
| RetryAfterInt (seconds : Z)
| RetryAfterText.

(** What the decoded body binds to an id: an object with a number under
    ['usd'], an object without the key ['usd'], or an object whose ['usd']
    is [null] or another value that is not a number (a string, a list, an
    object). *)
Inductive quote :=
| Usd (price : Q)
| NoUsd
| UsdNotNumber.

(** The body as [response.json()] sees it: text it rejects, or the JSON
    object the provider documents, from ids to quotes. *)
Inductive body :=
| BodyMalformed
| BodyJson (data : gmap string quote).

(** The outcome of one [requests.get]: [NoResponse] is a
    [RequestException] (connection error, timeout). *)
Inductive response :=
| NoResponse
| Response (status_code : nat) (retry_after : retry_after_header) (content : body).

(** The content of [CRYPTO_CACHE_FILE]: something the read fails on (text
    that [json.load] rejects, a value that is not an object), or an object
    whose keys ['timestamp'] and ['prices'] may be missing. *)
Inductive cache_file :=
| CacheGarbage
| CacheJson (timestamp : option Q) (prices : option (gmap string (option Q))).

(** Effects of the price functions, in order; the [Info], [Warn] and
    [Error] events are the [logging] calls. *)
Inductive event :=
| HttpGet (ids_param : string)
| Sleep (seconds : Z)
| InfoRequesting (attempt : nat)
| WarnRateLimit (retry_after : Z)
| InfoPrice (crypto_id : string) (price : Q)
| WarnPriceNotFound (crypto_id : string)
| ErrorAttempt (attempt : nat)
| InfoBackoff (backoff_time : Z)
| ErrorMaxRetries
| InfoCacheHit
| InfoCachedPrice (crypto_id : string) (price : Q)
| InfoCacheMissing (missing_ids : list string)
| InfoCacheExpired
| WarnCacheRead
| InfoFresh
| InfoCacheUpdated
| WarnCacheWrite.

Record world := {
  now : Q;                     (* what [time.time()] returns *)
  cache : option cache_file;   (* [None]: the file does not exist *)
  writable : bool;             (* whether [open(CRYPTO_CACHE_FILE, 'w')] succeeds *)
  sent : nat;                  (* requests issued so far *)
  events : list event
}.

Definition emit (e : event) (w : world) : world :=
  {| now := now w; cache := cache w; writable := writable w; sent := sent w;
     events := (events w ++ [e])%list |}.

(** [time.sleep(seconds)] for a non-negative duration. *)
Definition sleep (seconds : Z) (w : world) : world :=
  {| now := (now w + inject_Z seconds)%Q; cache := cache w;
     writable := writable w; sent := sent w;
     events := (events w ++ [Sleep seconds])%list |}.

Definition count_request (ids_param : string) (w : world) : world :=
  {| now := now w; cache := cache w; writable := writable w;
     sent := S (sent w); events := (events w ++ [HttpGet ids_param])%list |}.

Definition write_cache (record : cache_file) (w : world) : world :=
  {| now := now w; cache := Some record; writable := writable w;
     sent := sent w; events := events w |}.

(** [if not d] on a [dict]. *)
Definition is_empty_dict {A} (d : gmap string A) : bool :=
  match map_to_list d with
  | [] => true
  | _ => false
  end.

(** [int(response.headers.get('Retry-After', retry_delay))]; [None] is the
    [ValueError] of [int]. *)
Definition retry_after_seconds (retry_delay : nat) (header : retry_after_header)
  : option Z :=
  match header with
  | RetryAfterAbsent => Some (Z.of_nat retry_delay)
  | RetryAfterInt seconds => Some seconds
  | RetryAfterText => None
  end.

(** How one pass through the [try] block of [get_crypto_prices] ends. *)
Inductive tried :=
| Return (prices : gmap string (option Q)) (w : world)
| Continue (w : world)
| Except (w : world).

Section PricePipeline.

(** The price provider: [api n] answers the request number [n]. *)
Variable api : nat -> response.

(** Body of [for crypto_id in crypto_ids] over the decoded response.  A
    ['usd'] that is not a number is stored in [prices], and then the log
    line renders it with [:,.2f], which raises ([TypeError] on [None]):
    the result is [None] and the attempt ends in an [except] clause, with
    [prices] lost. *)
Definition price_step (data : gmap string quote)
    (st : gmap string (option Q) * world) (crypto_id : string)
  : option (gmap string (option Q)) * world :=
  let '(prices, w) := st in
  match data !! crypto_id with
  | Some (Usd price) =>
      (Some (<[crypto_id := Some price]> prices), emit (InfoPrice crypto_id price) w)
  | Some UsdNotNumber => (None, w)
  | Some NoUsd | None =>
      (Some (<[crypto_id := None]> prices), emit (WarnPriceNotFound crypto_id) w)
  end.

(** [for crypto_id in crypto_ids]: the loop ends at the first id whose log
    line raises. *)
Fixpoint for_crypto_ids (data : gmap string quote) (crypto_ids : list string)
    (st : gmap string (option Q) * world)
  : option (gmap string (option Q)) * world :=
  match crypto_ids with
  | [] => (Some st.1, st.2)
  | crypto_id :: crypto_ids' =>
      match price_step data st crypto_id with
      | (Some prices, w) => for_crypto_ids data crypto_ids' (prices, w)
      | (None, w) => (None, w)
      end
  end.

(** The [try] block of one attempt.  [retry_delay] is a non-negative
    [int]. *)
Definition try_attempt (crypto_ids : list string) (retry_delay : nat)
    (attempt : nat) (w : world) : tried :=
  let w := emit (InfoRequesting attempt) w in
  let reply := api (sent w) in
  let w := count_request (join "," crypto_ids) w in
  match reply with
  | NoResponse => Except w
  | Response status_code header content =>
      if (status_code =? 429)%nat then
        match retry_after_seconds retry_delay header with
        | None => Except w
        | Some retry_after =>
            let w := emit (WarnRateLimit retry_after) w in
            (* [time.sleep] raises [ValueError] on a negative length *)
            if (retry_after <? 0)%Z then Except w
            else Continue (sleep retry_after w)
        end
      else if ((400 <=? status_code) && (status_code <? 600))%nat then
        (* [raise_for_status] *)
        Except w
      else
        match content with
        | BodyMalformed => Except w
        | BodyJson data =>
            match for_crypto_ids data crypto_ids (∅, w) with
            | (Some prices, w) => Return prices w
            | (None, w) => Except w
            end
        end
  end.

(** [for attempt in range(max_retries)], on the values of [attempt] still
    to come; the loop falls through to [return {}]. *)
Fixpoint for_attempts (crypto_ids : list string) (max_retries retry_delay : nat)
    (range : list nat) (w : world) : gmap string (option Q) * world :=
  match range with
  | [] => (∅, w)
  | attempt :: range' =>
      match try_attempt crypto_ids retry_delay attempt w with
      | Return prices w => (prices, w)
      | Continue w => for_attempts crypto_ids max_retries retry_delay range' w
      | Except w =>
          let w := emit (ErrorAttempt attempt) w in
          let w :=
            if (Z.of_nat attempt <? Z.of_nat max_retries - 1)%Z then
              let backoff_time := (Z.of_nat retry_delay * 2 ^ Z.of_nat attempt)%Z in
              sleep backoff_time (emit (InfoBackoff backoff_time) w)
            else emit ErrorMaxRetries w in
          for_attempts crypto_ids max_retries retry_delay range' w
      end
  end.

Definition get_crypto_prices (crypto_ids : option (list string))
    (max_retries retry_delay : nat) (w : world)
  : gmap string (option Q) * world :=
  let crypto_ids := default DEFAULT_CRYPTO_IDS crypto_ids in
  for_attempts crypto_ids max_retries retry_delay (seq 0 max_retries) w.

(** The set of coin ids held in any account, or the defaults. *)
Definition get_crypto_ids_from_accounts (accounts : list account) : list string :=
  let add_account (crypto_ids : gset string) (a : account) :=
    match account_assets a with
    | Some h =>
        match crypto h with
        | Some crypto_assets =>
            fold_left (fun s holding => s ∪ {[holding.1]}) crypto_assets crypto_ids
        | None => crypto_ids
        end
    | None => crypto_ids
    end in
  let crypto_ids := fold_left add_account accounts ∅ in
  let crypto_ids :=
    if decide (crypto_ids = ∅) then list_to_set DEFAULT_CRYPTO_IDS else crypto_ids in
  elements crypto_ids.

(** [for crypto_id, price in prices.items()] on a cache hit: the price of
    every requested id is rendered with [:,.2f], which raises [TypeError]
    on [None].  The boolean tells whether the loop ran to its end. *)
Fixpoint log_cached (crypto_ids : list string)
    (items : list (string * option Q)) (w : world) : world * bool :=
  match items with
  | [] => (w, true)
  | (crypto_id, price) :: items' =>
      if bool_decide (crypto_id ∈ crypto_ids) then
        match price with
        | Some p => log_cached crypto_ids items' (emit (InfoCachedPrice crypto_id p) w)
        | None => (w, false)
        end
      else log_cached crypto_ids items' w
  end.

(** The [try] block that consults the cache file: [Some prices] is its
    [return prices]; [None] means control reaches the fresh fetch. *)
Definition read_cache (crypto_ids : list string) (cache_duration : Z) (w : world)
  : option (gmap string (option Q)) * world :=
  match cache w with
  | None => (None, w)
  | Some CacheGarbage => (None, emit WarnCacheRead w)
  | Some (CacheJson timestamp prices) =>
      let timestamp := default 0%Q timestamp in
      let current_time := now w in
      if Qltb (current_time - timestamp) (inject_Z cache_duration) then
        let prices := default ∅ prices in
        let missing_ids :=
          filter (fun crypto_id => prices !! crypto_id = None) crypto_ids in
        match missing_ids with
        | [] =>
            match log_cached crypto_ids (map_to_list prices) (emit InfoCacheHit w) with
            | (w, true) => (Some prices, w)
            | (w, false) => (None, emit WarnCacheRead w)
            end
        | _ => (None, emit (InfoCacheMissing missing_ids) w)
        end
      else (None, emit InfoCacheExpired w)
  end.

(** [accounts] is the module-level global the function falls back on. *)
Definition get_cached_crypto_prices (accounts : list account)
    (crypto_ids : option (list string)) (cache_duration : Z) (w : world)
  : gmap string (option Q) * world :=
  let crypto_ids :=
    match crypto_ids with
    | Some ids => ids
    | None => get_crypto_ids_from_accounts accounts
    end in
  match read_cache crypto_ids cache_duration w with
  | (Some prices, w) => (prices, w)
  | (None, w) =>
      let '(prices, w) := get_crypto_prices (Some crypto_ids) 3 5 (emit InfoFresh w) in
      if is_empty_dict prices then (prices, w)
      else if writable w then
        (prices,
         emit InfoCacheUpdated
           (write_cache (CacheJson (Some (now w)) (Some prices)) w))
      else (prices, emit WarnCacheWrite w)
  end.

End PricePipeline.

(** ** The MFA dialogue: [handle_mfa_code] *)

(** What the browser shows for one call of [handle_mfa_code]:
    the OTP fields never appear ([WebDriverWait] raises, nothing is typed),
    or the code is typed and submitted and, five seconds later, the OTP
    fields are gone ([Accepted]) or still there ([Rejected]). *)
Inductive reaction :=
| FieldsTimeout
| Accepted
| Rejected.

Record mfa_state := {
  entered : list string;   (* the codes typed and submitted, oldest first *)
  totp_calls : nat         (* calls of [get_totp_from_secret] so far *)
}.

Definition enter (mfa_code : string) (s : mfa_state) : mfa_state :=
  {| entered := (entered s ++ [mfa_code])%list; totp_calls := totp_calls s |}.

Definition tick_totp (s : mfa_state) : mfa_state :=
  {| entered := entered s; totp_calls := S (totp_calls s) |}.

Section Mfa.

(** [page n]: the browser's reaction to submission number [n]. *)
Variable page : nat -> reaction.
(** [totp n]: the result of call number [n] of [get_totp_from_secret],
    [None] when it fails. *)
Variable totp : nat -> option string.

(** [depth] bounds the nesting of calls, as the interpreter's recursion
    limit does; a call that may not nest any further yields [False]. *)
Fixpoint handle_mfa_code (depth : nat) (mfa_code : string) (s : mfa_state)
  : bool * mfa_state :=
  match depth with
  | O => (false, s)
  | S depth' =>
      match page (length (entered s)) with
      | FieldsTimeout => (false, s)
      | Accepted => (true, enter mfa_code s)
      | Rejected =>
          let s := enter mfa_code s in
          let fresh := totp (totp_calls s) in
          let s := tick_totp s in
          match fresh with
          | Some fresh_mfa_code =>
              if negb (String.eqb fresh_mfa_code "")
                 && negb (String.eqb fresh_mfa_code mfa_code)
              then handle_mfa_code depth' fresh_mfa_code s
              else (false, s)
          | None => (false, s)
          end
      end
  end.

End Mfa.

(** ** The command loop of [update_projectionlab] *)

(** The [logging] calls of the loop and of the enclosing handler. *)
Inductive exec_log :=
| InfoExecuting (redacted_command : string)
| InfoExecuted
| ErrorUpdating.

Definition REDACTED : string := "***REDACTED***".

(** [command.replace(command.split("key: '")[1].split("'")[0], REDACTED)];
    [None] is the [IndexError] of [[1]] on a command without ["key: '"]. *)
Definition redacted_command (command : string) : option string :=
  pieces ← split "key: '" command;
  rest ← pieces !! 1%nat;
  quoted ← split "'" rest;
  secret ← quoted !! 0%nat;
  Some (replace secret REDACTED command).

Section CommandLoop.

(** Whether [driver.execute_script(command)] returns ([true]) or raises. *)
Variable script_ok : string -> bool.

(** [for command in update_commands] with the pages' log and the list of
    commands handed to the browser. The boolean is the function's
    result: [False] comes from the [except] clause around the loop. *)
Fixpoint update_projectionlab_loop (update_commands : list string)
    (log : list exec_log) (executed : list string)
  : bool * list exec_log * list string :=
  match update_commands with
  | [] => (true, log, executed)
  | command :: rest =>
      match redacted_command command with
      | None => (false, (log ++ [ErrorUpdating])%list, executed)
      | Some redacted =>
          let log := (log ++ [InfoExecuting redacted])%list in
          let executed := (executed ++ [command])%list in
          if script_ok command
          then update_projectionlab_loop rest (log ++ [InfoExecuted])%list executed
          else (false, (log ++ [ErrorUpdating])%list, executed)
      end
  end.

End CommandLoop.

(** ** Vocabulary of the statements *)

(** The holdings the two loops of [calculate_account_balances] visit. *)
Definition crypto_holdings (a : account) : list (string * Q) :=
  match account_assets a with
  | Some h => default [] (crypto h)
  | None => []
  end.

Definition stock_holdings (a : account) : list stock_holding :=
  match account_assets a with
  | Some h => default [] (stock h)
  | None => []
  end.

(** No holding of the account has a price the loops would use. *)
Definition unpriced (crypto_prices : gmap string (option Q))
    (stock_prices : gmap string Q) (a : account) : Prop :=
  (forall crypto_id amount, (crypto_id, amount) ∈ crypto_holdings a ->
     crypto_prices !! crypto_id = None \/ crypto_prices !! crypto_id = Some None)
  /\ (forall h, h ∈ stock_holdings a -> stock_prices !! symbol h = None).

(** The account [a] with its crypto holdings replaced. *)
Definition with_crypto (a : account) (crypto_assets : list (string * Q)) : account :=
  {| account_id := account_id a;
     account_name := account_name a;
     account_assets :=
       Some {| crypto := Some crypto_assets;
               stock := match account_assets a with
                        | Some h => stock h
                        | None => None
                        end |} |}.

(** The tally [t] as it would be had [log] been written before it. *)
Definition after_log (log : list balance_log) (t : tally) : tally :=
  {| total_usd := total_usd t;
     assets_summary := assets_summary t;
     tally_log := (log ++ tally_log t)%list |}.

(** The command the loop body appends for account [a]. *)
Definition account_command (crypto_prices : gmap string (option Q))
    (stock_prices : gmap string Q) (pl_api_key : string) (a : account) : string :=
  update_command pl_api_key (account_id a)
    (total_usd (account_tally crypto_prices stock_prices [] a)).

(** The price a quote gives, [None] when it gives none. *)
Definition reading (q : quote) : option Q :=
  match q with
  | Usd price => Some price
  | NoUsd | UsdNotNumber => None
  end.

(** Whether the log line of [get_crypto_prices] raises for the id. *)
Definition unreadable (data : gmap string quote) (crypto_id : string) : bool :=
  match data !! crypto_id with
  | Some UsdNotNumber => true
  | _ => false
  end.

(** The readings of a reply the loop of [get_crypto_prices] returns from:
    not a 429, not an error status, a body that parses and in which the
    ['usd'] of every requested id that has one is a number. *)
Definition successful (crypto_ids : list string) (r : response)
  : option (gmap string (option Q)) :=
  match r with
  | Response status_code _ (BodyJson data) =>
      if ((status_code =? 429) || ((400 <=? status_code) && (status_code <? 600)))%nat
         || existsb (unreadable data) crypto_ids
      then None else Some (reading <$> data)
  | _ => None
  end.

Definition tried_world (t : tried) : world :=
  match t with
  | Return _ w | Continue w | Except w => w
  end.

(** The world in which the loop of [get_crypto_prices] goes on after an
    attempt that ended in one of the [except] clauses. *)
Definition after_failure (max_retries retry_delay attempt : nat) (w : world) : world :=
  let w := emit (ErrorAttempt attempt) w in
  if (Z.of_nat attempt <? Z.of_nat max_retries - 1)%Z then
    let backoff_time := (Z.of_nat retry_delay * 2 ^ Z.of_nat attempt)%Z in
    sleep backoff_time (emit (InfoBackoff backoff_time) w)
  else emit ErrorMaxRetries w.

(** The durations slept, in order. *)
Definition sleeps (evs : list event) : list Z :=
  omap (fun e => match e with Sleep seconds => Some seconds | _ => None end) evs.

(** The number of requests issued. *)
Definition requests (evs : list event) : nat :=
  length (omap (fun e => match e with HttpGet p => Some p | _ => None end) evs).

(** What the cache file holds for an id. *)
Definition cached_price (w : world) (crypto_id : string) : option (option Q) :=
  match cache w with
  | Some (CacheJson _ (Some prices)) => prices !! crypto_id
  | _ => None
  end.

(** The ids [get_cached_crypto_prices] works with. *)
Definition requested_ids (accounts : list account) (crypto_ids : option (list string))
  : list string :=
  match crypto_ids with
  | Some ids => ids
  | None => get_crypto_ids_from_accounts accounts
  end.

(** Every code of [fresh] is non-empty and differs from the one before it,
    the first from [previous]. *)
Fixpoint differing (previous : string) (fresh : list string) : Prop :=
  match fresh with
  | [] => True
  | code :: fresh' => code <> "" /\ code <> previous /\ differing code fresh'
  end.

(** ** Sample inputs *)

Definition brokerage : account :=
  {| account_id := "a1"; account_name := "Brokerage";
     account_assets :=
       Some {| crypto := None;
               stock := Some [{| symbol := "AAPL"; shares := 10 |}] |} |}.

Definition wallet : account :=
  {| account_id := "a2"; account_name := "Wallet";
     account_assets :=
       Some {| crypto := Some [("bitcoin", 1 # 2)]; stock := None |} |}.

Definition bitcoin_60000 : gmap string (option Q) := {[ "bitcoin" := Some 60000%Q ]}.

(** The body [of bitcoin at 60000 dollars]. *)
Definition bitcoin_quoted : gmap string quote := {[ "bitcoin" := Usd 60000%Q ]}.
Definition aapl_150 : gmap string Q := {[ "AAPL" := 150%Q ]}.

(** One bitcoin, priced at minus five dollars. *)
Definition one_bitcoin : account :=
  {| account_id := "a3"; account_name := "Cold storage";
     account_assets :=
       Some {| crypto := Some [("bitcoin", 1%Q)]; stock := None |} |}.

Definition bitcoin_negative : gmap string (option Q) := {[ "bitcoin" := Some (-5)%Q ]}.

(** Accounts without anything to price. *)
Definition no_assets : account :=
  {| account_id := "a4"; account_name := "Closed"; account_assets := None |}.

Definition unknown_coin : account :=
  {| account_id := "a5"; account_name := "Altcoins";
     account_assets :=
       Some {| crypto := Some [("dogecoin", 1000%Q)];
               stock := Some [{| symbol := "MSFT"; shares := 3 |}] |} |}.

(** A provider that throttles the first request, is unreachable for the
    next two and answers the fourth. *)
Definition throttled_then_down (n : nat) : response :=
  match n with
  | 0 => Response 429 (RetryAfterInt 2) BodyMalformed
  | 1 | 2 => NoResponse
  | _ => Response 200 RetryAfterAbsent (BodyJson bitcoin_quoted)
  end.

Definition unreachable (n : nat) : response := NoResponse.

(** A provider that knows bitcoin only. *)
Definition bitcoin_only (n : nat) : response :=
  Response 200 RetryAfterAbsent (BodyJson bitcoin_quoted).

(** A provider that fails once and then knows bitcoin only. *)
Definition flaky_bitcoin_only (n : nat) : response :=
  match n with
  | 0 => Response 503 RetryAfterAbsent BodyMalformed
  | _ => Response 200 RetryAfterAbsent (BodyJson bitcoin_quoted)
  end.

(** A provider whose every reply has status 200 and a body that prices
    ethereum and gives [null] as the ['usd'] of bitcoin. *)
Definition null_bitcoin (n : nat) : response :=
  Response 200 RetryAfterAbsent
    (BodyJson {[ "bitcoin" := UsdNotNumber; "ethereum" := Usd 3000%Q ]}).

(** The same provider, its entry of bitcoin being without the key
    ['usd']. *)
Definition unpriced_bitcoin (n : nat) : response :=
  Response 200 RetryAfterAbsent
    (BodyJson {[ "bitcoin" := NoUsd; "ethereum" := Usd 3000%Q ]}).

(** A provider that gives [null] as the price of bitcoin once and 60000
    dollars from then on. *)
Definition null_then_bitcoin (n : nat) : response :=
  match n with
  | 0 => Response 200 RetryAfterAbsent (BodyJson {[ "bitcoin" := UsdNotNumber ]})
  | _ => Response 200 RetryAfterAbsent (BodyJson bitcoin_quoted)
  end.

(** A start at time [t0] without a cache file. *)
Definition cold_start (t0 : Q) : world :=
  {| now := t0; cache := None; writable := true; sent := 0; events := [] |}.

(** A start at time 1000 with a record of bitcoin and ethereum written at
    time 0. *)
Definition stale_two_coins : world :=
  {| now := 1000;
     cache := Some (CacheJson (Some 0%Q)
                      (Some {[ "bitcoin" := Some 50000%Q; "ethereum" := Some 3000%Q ]}));
     writable := true; sent := 0; events := [] |}.

(** A page that rejects whatever is submitted. *)
Definition always_rejects (n : nat) : reaction := Rejected.

(** A generator whose code changes on each of its first three calls. *)
Definition rolling_codes (n : nat) : option string :=
  match n with
  | 0 => Some "111111"
  | 1 => Some "222222"
  | _ => Some "333333"
  end.

(** The state in which [update_projectionlab] calls [handle_mfa_code]: one
    code generated, none submitted. *)
Definition mfa_start : mfa_state := {| entered := []; totp_calls := 1 |}.

(** An account whose id ends with the words the redaction looks for; in
    the command the id is followed by a quote. *)
Definition vault : account :=
  {| account_id := "vault key: "; account_name := "Savings"; account_assets := None |}.

Definition script_succeeds (command : string) : bool := true.

(** ** Vocabulary of the further properties *)

(** The coin ids held in the accounts, in order and with repetitions. *)
Definition held_ids (accounts : list account) : list string :=
  flat_map (fun a => map fst (crypto_holdings a)) accounts.

(** Whether a reply sends the attempt of [get_crypto_prices] into one of
    its [except] clauses: no reply, an error status, a body that does not
    parse or in which the ['usd'] of a requested id is not a number, or a
    429 whose [Retry-After] cannot be slept. *)
Definition raises (crypto_ids : list string) (retry_delay : nat) (r : response)
  : bool :=
  match r with
  | NoResponse => true
  | Response status_code header content =>
      if (status_code =? 429)%nat then
        match retry_after_seconds retry_delay header with
        | None => true
        | Some retry_after => (retry_after <? 0)%Z
        end
      else if ((400 <=? status_code) && (status_code <? 600))%nat then true
      else match content with
           | BodyMalformed => true
           | BodyJson data => existsb (unreadable data) crypto_ids
           end
  end.

(** [retry_delay * (2 ** attempt)]. *)
Definition backoff_time (retry_delay attempt : nat) : Z :=
  (Z.of_nat retry_delay * 2 ^ Z.of_nat attempt)%Z.


(** A command the loop of [update_projectionlab] gets through: its
    redaction does not fail and the browser runs it. *)
Definition runnable (script_ok : string -> bool) (command : string) : Prop :=
  is_Some (redacted_command command) /\ script_ok command = true.


(** Two coins worth 0.004 dollars each. *)
Definition two_small_coins : account :=
  {| account_id := "a"; account_name := "n";
     account_assets :=
       Some {| crypto := Some [("bitcoin", 1%Q); ("ethereum", 1%Q)];
               stock := None |} |}.

Definition small_prices : gmap string (option Q) :=
  {[ "bitcoin" := Some (4 # 1000)%Q; "ethereum" := Some (4 # 1000)%Q ]}.

(** The character ['], the one the redaction splits on. *)
Definition quote_char : Ascii.ascii :=
  Ascii.Ascii true true true false false true false false.

(** ** The run lock: [obtain_lock] and [release_lock] *)

(** The lock file: its modification time and its content. *)
Record lock_file := { mtime : Q; owner : string }.

Inductive lock_log :=
| WarnStaleLock
| ErrorRemovingStale
| WarnAlreadyRunning
| InfoLockCreated
| ErrorCreatingLock
| InfoLockRemoved
| ErrorRemovingLock.

(** The part of the host the lock functions touch.  [removable] and
    [creatable] tell whether [os.remove] and [open(.., 'w')] on
    [LOCK_FILE_PATH] succeed. *)
Record host := {
  lock : option lock_file;
  removable : bool;
  creatable : bool;
  lock_events : list lock_log
}.

Definition set_lock (l : option lock_file) (e : lock_log) (h : host) : host :=
  {| lock := l; removable := removable h; creatable := creatable h;
     lock_events := (lock_events h ++ [e])%list |}.

Definition note (e : lock_log) (h : host) : host := set_lock (lock h) e h.

(** The second half of [obtain_lock]: create the file with the pid in it. *)
Definition create_lock (pid : N) (current_time : Q) (h : host) : bool * host :=
  if creatable h
  then (true, set_lock (Some {| mtime := current_time; owner := pretty pid |})
                InfoLockCreated h)
  else (false, note ErrorCreatingLock h).

(** [obtain_lock()], for the process [pid] at the time [current_time] that
    [time.time()] returns. *)
Definition obtain_lock (pid : N) (current_time : Q) (h : host) : bool * host :=
  match lock h with
  | Some l =>
      let lock_file_time := mtime l in
      if Qltb 3600 (current_time - lock_file_time) then
        let h := note WarnStaleLock h in
        if removable h
        then create_lock pid current_time
               {| lock := None; removable := removable h; creatable := creatable h;
                  lock_events := lock_events h |}
        else (false, note ErrorRemovingStale h)
      else (false, note WarnAlreadyRunning h)
  | None => create_lock pid current_time h
  end.

(** [release_lock()]. *)
Definition release_lock (h : host) : host :=
  match lock h with
  | Some _ =>
      if removable h then set_lock None InfoLockRemoved h
      else note ErrorRemovingLock h
  | None => h
  end.

(** The host as it is found at a later moment: the same lock file. *)
Definition same_lock (h h' : host) : Prop := lock h' = lock h.

(** ** [get_config_from_env] *)

(** The double quote character. *)
Definition dquote_char : Ascii.ascii :=
  Ascii.Ascii false true false false false true false false.

(** [str.upper()] on ASCII text: the letters [a] to [z] move to [A] to
    [Z], every other character stays. *)
Definition upper_char (c : Ascii.ascii) : Ascii.ascii :=
  let n := Ascii.nat_of_ascii c in
  if ((97 <=? n) && (n <=? 122))%nat then Ascii.ascii_of_nat (n - 32) else c.

Fixpoint upper (s : string) : string :=
  match s with
  | EmptyString => EmptyString
  | String c s' => String (upper_char c) (upper s')
  end.

(** The cleaning of the MFA key: four [replace] calls that delete the
    spaces, the dashes, the double quotes and the single quotes, in this
    order, then [upper()]. *)
Definition clean_key (raw_mfa_key : string) : string :=
  upper
    (replace (String quote_char "") ""
       (replace (String dquote_char "") ""
          (replace "-" "" (replace " " "" raw_mfa_key)))).

(** [if v] on what [os.getenv] returns: set and not empty. *)
Definition truthy (v : option string) : bool :=
  match v with
  | Some s => negb (String.eqb s "")
  | None => false
  end.

(** ['********' if v else None]. *)
Definition masked (v : option string) : option string :=
  if truthy v then Some "********" else None.

(** [config['projectionlab']]. *)
Record pl_config := {
  username : option string;
  password : option string;
  api_key : option string;
  mfa_key : option string;
  url : string;
  time_delay : Z
}.

Inductive config_log :=
| InfoConfigLoaded (safe_config : pl_config)
| ErrorConfigMissing.

Section Config.

(** Python's [int] on a string; [None] is its [ValueError]. *)
Variable int : string -> option Z.

(** [env] is the process environment.  The result is [None] when
    [int(os.getenv('PL_TIME_DELAY', '10'))] raises; otherwise it is what the
    function returns, a configuration or [None], with what it has logged. *)
Definition get_config_from_env (env : gmap string string)
  : option (option pl_config * list config_log) :=
  let raw_mfa_key := env !! "PL_MFA_KEY" in
  let clean_mfa_key :=
    if truthy raw_mfa_key then clean_key <$> raw_mfa_key else None in
  delay ← int (default "10" (env !! "PL_TIME_DELAY"));
  let config :=
    {| username := env !! "PL_USERNAME";
       password := env !! "PL_PASSWORD";
       api_key := env !! "PL_API_KEY";
       mfa_key := clean_mfa_key;
       url := default "https://app.projectionlab.com/login" (env !! "PL_URL");
       time_delay := delay |} in
  let safe_config :=
    {| username := username config;
       password := masked (password config);
       api_key := masked (api_key config);
       mfa_key := masked (mfa_key config);
       url := url config;
       time_delay := time_delay config |} in
  let log := [InfoConfigLoaded safe_config] in
  if negb (truthy (username config)) || negb (truthy (password config))
     || negb (truthy (api_key config))
  then Some (None, (log ++ [ErrorConfigMissing])%list)
  else Some (Some config, log).

End Config.

(** The characters [clean_key] takes out. *)
Definition is_separator (c : Ascii.ascii) : bool :=
  let n := Ascii.nat_of_ascii c in
  ((n =? 32) || (n =? 45) || (n =? 34) || (n =? 39))%nat.

(** The characters of [s] that satisfy [p], in order. *)
Fixpoint keep (p : Ascii.ascii -> bool) (s : string) : string :=
  match s with
  | EmptyString => EmptyString
  | String c s' => if p c then String c (keep p s') else keep p s'
  end.

Fixpoint all_chars (p : Ascii.ascii -> bool) (s : string) : bool :=
  match s with
  | EmptyString => true
  | String c s' => p c && all_chars p s'
  end.

(** ASCII text: every character is below 128. *)
Definition is_ascii (s : string) : bool :=
  all_chars (fun c => (Ascii.nat_of_ascii c <? 128)%nat) s.

Definition is_lower (c : Ascii.ascii) : bool :=
  let n := Ascii.nat_of_ascii c in ((97 <=? n) && (n <=? 122))%nat.

(** A stand-in for [int] that reads plain decimal digits. *)
Fixpoint read_digits (acc : Z) (s : string) : option Z :=
  match s with
  | EmptyString => Some acc
  | String c s' =>
      let n := Ascii.nat_of_ascii c in
      if ((48 <=? n) && (n <=? 57))%nat
      then read_digits (acc * 10 + Z.of_nat (n - 48)) s'
      else None
  end.

Definition int_of_digits (s : string) : option Z :=
  match s with
  | EmptyString => None
  | _ => read_digits 0 s
  end.

(** ** [wait_for_login_completion] *)

(** What one pass of the polling loop finds: the page has
    [window.projectionlabPluginAPI], it does not have it yet, or one of the
    browser calls of the pass raises. *)
Inductive probe_result :=
| ApiAvailable
| ApiNotYet
| ProbeRaised.

Record waiting := {
  polls : nat;     (* passes of the loop so far *)
  wait_now : Q     (* what [time.time()] returns *)
}.

Section LoginWait.

(** [probe n]: what pass number [n] finds; [took n]: the seconds its
    browser calls take. *)
Variable probe : nat -> probe_result.
Variable took : nat -> Q.

(** [while time.time() - start_time < timeout]; [fuel] bounds the number
    of passes, [None] means it did not suffice. *)
Fixpoint wait_loop (fuel : nat) (timeout : Z) (start_time : Q) (s : waiting)
  : option (bool * waiting) :=
  match fuel with
  | O => None
  | S fuel' =>
      if Qltb (wait_now s - start_time) (inject_Z timeout) then
        let s := {| polls := S (polls s);
                    wait_now := (wait_now s + took (polls s))%Q |} in
        match probe (polls s - 1) with
        | ApiAvailable => Some (true, s)
        | _ =>
            (* [time.sleep(1)], in the [try] block or in its handler *)
            wait_loop fuel' timeout start_time
              {| polls := polls s; wait_now := (wait_now s + 1)%Q |}
        end
      else Some (false, s)
  end.

Definition wait_for_login_completion (fuel : nat) (timeout : Z) (s : waiting)
  : option (bool * waiting) :=
  let start_time := wait_now s in
  wait_loop fuel timeout start_time s.

End LoginWait.

(** A page on which the API shows up at the third look, the second look
    having failed. *)
Definition third_look (n : nat) : probe_result :=
  match n with
  | 0 => ApiNotYet
  | 1 => ProbeRaised
  | _ => ApiAvailable
  end.

Definition half_second (n : nat) : Q := 1 # 2.

(** ** [update_projectionlab] as a whole *)

(** The page elements and properties the function asks the browser for. *)
Inductive element :=
| SignInWithEmail     (* the second button of the auth container *)
| EmailInput7 | EmailInput6
| PasswordInput9 | PasswordInput8
| EmailInput | PasswordInput   (* the field found under one of its ids *)
| SignInButton
| OtpFields
| CurrentUrl | PageSource.

(** What the function does to the browser, in order. *)
Inductive action :=
| Started                                  (* [webdriver.Chrome(...)] *)
| Went (url : string)                      (* [driver.get] *)
| Paused (seconds : Z)                     (* [time.sleep] *)
| Found (what : element)                   (* [find_element] *)
| Clicked (what : element)
| Cleared (what : element)
| Typed (what : element) (text : string)   (* [send_keys] *)
| Looked (what : element)                  (* [find_elements], a property *)
| Polled (passes : nat)                    (* [wait_for_login_completion] *)
| Awaited                                  (* [WebDriverWait(driver, 20).until] *)
| Ran (command : string)                   (* [execute_script(command)] *)
| Quit.

Record session := {
  calls : nat;              (* WebDriver calls made so far *)
  actions : list action;
  mfa : mfa_state
}.

(** How a piece of the [try] block ends: it goes on, it returns from the
    function, or it raises. *)
Inductive flow :=
| Next
| Returns (result : bool)
| Raises.

Definition count_call (s : session) : session :=
  {| calls := S (calls s); actions := actions s; mfa := mfa s |}.

Definition record (a : action) (s : session) : session :=
  {| calls := calls s; actions := (actions s ++ [a])%list; mfa := mfa s |}.

Definition set_mfa (m : mfa_state) (s : session) : session :=
  {| calls := calls s; actions := actions s; mfa := m |}.

(** [p ;; q]: [q] runs when [p] goes on. *)
Definition and_then (p q : session -> flow * session) (s : session) : flow * session :=
  match p s with
  | (Next, s') => q s'
  | r => r
  end.

(** [try: p  except: q]. *)
Definition or_else (p q : session -> flow * session) (s : session) : flow * session :=
  match p s with
  | (Raises, s') => q s'
  | r => r
  end.

Definition go_on (s : session) : flow * session := (Next, s).
Definition give (result : bool) (s : session) : flow * session := (Returns result, s).

(** [time.sleep(seconds)]; a negative length raises [ValueError]. *)
Definition pause (seconds : Z) (s : session) : flow * session :=
  if (seconds <? 0)%Z then (Raises, s) else (Next, record (Paused seconds) s).

(** The commands handed to the browser. *)
Definition ran (acts : list action) : list string :=
  omap (fun a => match a with Ran command => Some command | _ => None end) acts.

(** An action other than starting and quitting the browser. *)
Definition inner (a : action) : Prop := a <> Started /\ a <> Quit.

Section Update.

(** [fails n]: whether the WebDriver call number [n] raises. *)
Variable fails : nat -> bool.
(** Whether [find_elements] finds OTP fields after the sign-in. *)
Variable otp_fields_present : bool.
Variable page : nat -> reaction.
Variable totp : nat -> option string.
(** The nesting [handle_mfa_code] is allowed. *)
Variable depth : nat.
(** What [wait_for_login_completion(driver, timeout=30)] returns, and the
    passes of its loop. *)
Variable login_successful : bool.
Variable passes : nat.
Variable script_ok : string -> bool.

(** One WebDriver call. *)
Definition call (a : action) (s : session) : flow * session :=
  if fails (calls s) then (Raises, count_call s)
  else (Next, record a (count_call s)).

(** An input field that is looked up under two ids; the function returns
    [False] when neither is there. *)
Definition locate (first second : element) : session -> flow * session :=
  or_else (call (Found first)) (or_else (call (Found second)) (give false)).

(** [field.clear(); field.send_keys(text)]; a missing text raises. *)
Definition fill (what : element) (text : option string) (s : session)
  : flow * session :=
  match text with
  | Some t => and_then (call (Cleared what)) (call (Typed what t)) s
  | None => and_then (call (Cleared what)) (fun s => (Raises, s)) s
  end.

(** [get_totp_from_secret]: it returns [None] when it fails. *)
Definition fresh_totp (s : session) : option string * session :=
  (totp (totp_calls (mfa s)), set_mfa (tick_totp (mfa s)) s).

(** The part between the sign-in click and the wait, under [if pl_mfa].
    What [handle_mfa_code] asks the browser is told by [page] and is not
    counted among the calls. *)
Definition mfa_steps (s : session) : flow * session :=
  let '(mfa_code, s) := fresh_totp s in
  (* the inner [try], whose handler only logs *)
  if fails (calls s) then (Next, count_call s)
  else
    let s := record (Looked OtpFields) (count_call s) in
    if otp_fields_present then
      let '(mfa_code, s) :=
        if truthy mfa_code then (mfa_code, s) else fresh_totp s in
      if truthy mfa_code then
        let '(_, m) :=
          handle_mfa_code page totp depth (default "" mfa_code) (mfa s) in
        (Next, set_mfa m s)
      else (Next, s)
    else (Next, s).

(** The lines after a failed login: what they ask the browser is inside a
    [try] whose handler only logs. *)
Definition login_failed : session -> flow * session :=
  and_then
    (or_else
       (and_then (call (Looked CurrentUrl))
          (and_then (call (Looked PageSource)) (call (Looked PageSource))))
       go_on)
    (give false).

(** The command loop, with its commands recorded among the actions. *)
Definition run_commands (update_commands : list string) (s : session)
  : flow * session :=
  let '(ok, _, executed) := update_projectionlab_loop script_ok update_commands [] [] in
  let s := {| calls := calls s; actions := (actions s ++ map Ran executed)%list;
              mfa := mfa s |} in
  if ok then (Next, s) else (Raises, s).

(** The body of the second [try] block. *)
Definition session_steps (update_commands : list string) (config : pl_config)
  : session -> flow * session :=
  and_then (call (Went (url config)))
  (and_then (pause (time_delay config))
  (and_then (call (Found SignInWithEmail))
  (and_then (call (Clicked SignInWithEmail))
  (and_then (pause 1)
  (and_then (locate EmailInput7 EmailInput6)
  (and_then (fill EmailInput (username config))
  (and_then (pause 1)
  (and_then (locate PasswordInput9 PasswordInput8)
  (and_then (fill PasswordInput (password config))
  (and_then (pause 1)
  (and_then (call (Found SignInButton))
  (and_then (call (Clicked SignInButton))
  (and_then (pause 3)
  (and_then (if truthy (mfa_key config) then mfa_steps else go_on)
  (and_then (fun s => (Next, record (Polled passes) s))
  (and_then (if login_successful then go_on else login_failed)
  (and_then (call Awaited)
  (and_then (run_commands update_commands)
  (and_then (pause (time_delay config))
            (give true)))))))))))))))))))).

(** [update_projectionlab(update_commands, config)].  The result is [None]
    when [driver.quit()] raises in the [finally] clause, so that the
    exception leaves the function. *)
Definition update_projectionlab (update_commands : list string)
    (config : pl_config) (s : session) : option bool * session :=
  let pl_mfa := mfa_key config in
  if truthy pl_mfa
     && (String.eqb (default "" pl_mfa) "********" || contains "*" (default "" pl_mfa))
  then (Some false, s)
  else if fails (calls s) then (Some false, count_call s)
  else
    let '(outcome, s) :=
      session_steps update_commands config (record Started (count_call s)) in
    let result :=
      match outcome with
      | Returns result => result
      | Next => true
      | Raises => false
      end in
    if fails (calls s) then (None, count_call s)
    else (Some result, record Quit (count_call s)).

End Update.

(** A piece of [update_projectionlab] that neither starts nor quits the
    browser, runs no command and does not return [True]. *)
Definition tame (p : session -> flow * session) : Prop :=
  forall s r s', p s = (r, s') ->
    r <> Returns true
    /\ exists added,
         actions s' = (actions s ++ added)%list
         /\ Forall inner added /\ ran added = [].

(** A piece that neither starts nor quits the browser and runs the first
    [k] commands, in order: none unless the login succeeded, all of them if
    it returns [True]. *)
Definition delivers (script_ok : string -> bool) (login_successful : bool)
    (update_commands : list string) (p : session -> flow * session) : Prop :=
  forall s r s', p s = (r, s') ->
    exists added k,
      actions s' = (actions s ++ added)%list
      /\ Forall inner added
      /\ ran added = take k update_commands
      /\ k <= length update_commands
      /\ (0 < k -> login_successful = true)
      /\ (r = Returns true ->
          k = length update_commands /\ login_successful = true
          /\ Forall (runnable script_ok) update_commands).

(** A browser in which nothing fails, without MFA. *)
Definition never_fails (n : nat) : bool := false.

Definition sample_config : pl_config :=
  {| username := Some "me@example.org"; password := Some "hunter2";
     api_key := Some "SECRET"; mfa_key := None;
     url := "https://app.projectionlab.com/login"; time_delay := 10 |}.

Definition fresh_session : session :=
  {| calls := 0; actions := []; mfa := {| entered := []; totp_calls := 0 |} |}.

(** The MFA key is one that [update_projectionlab] refuses as masked. *)
Definition masked_mfa_key (config : pl_config) : bool :=
  truthy (mfa_key config)
  && (String.eqb (default "" (mfa_key config)) "********"
      || contains "*" (default "" (mfa_key config))).

(** What the function returns for the way its [try] block ends. *)
Definition verdict (outcome : flow) : bool :=
  match outcome with
  | Returns result => result
  | Next => true
  | Raises => false
  end.

(** A browser that runs every script, and two commands as
    [calculate_account_balances] writes them. *)
Definition always_runs (command : string) : bool := true.

Definition sample_commands : list string :=
  [ "window.projectionlabPluginAPI.updateAccount('a1', { balance: 10.00 }, { key: 'SECRET' })";
    "window.projectionlabPluginAPI.updateAccount('a2', { balance: 0.00 }, { key: 'SECRET' })" ].

(** * Properties *)

(** ** Python primitives on samples *)

Example replace_all_occurrences : replace "ab" "X" "abcabab" = "XcXX".
Proof. reflexivity. Qed.

Example replace_no_overlap : replace "aa" "X" "aaa" = "Xa".
Proof. reflexivity. Qed.

Example replace_empty_old : replace "" "-" "ab" = "-a-b-".
Proof. reflexivity. Qed.

Example split_pieces : split ", " "a, b, , c" = Some ["a"; "b"; ""; "c"].
Proof. reflexivity. Qed.

Example split_absent : split "'" "abc" = Some ["abc"].
Proof. reflexivity. Qed.

Example join_ids : join "," ["bitcoin"; "ethereum"] = "bitcoin,ethereum".
Proof. reflexivity. Qed.

Example format_2f_int : format_2f 1500 = "1500.00".
Proof. vm_compute. reflexivity. Qed.

Example format_2f_half_even : format_2f (1 # 8) = "0.12".
Proof. vm_compute. reflexivity. Qed.

Example format_2f_up : format_2f (3 # 8) = "0.38".
Proof. vm_compute. reflexivity. Qed.

Example format_2f_neg : format_2f (-(5 # 2)) = "-2.50".
Proof. vm_compute. reflexivity. Qed.

Example format_2f_neg_zero : format_2f (-(1 # 1000)) = "-0.00".
Proof. vm_compute. reflexivity. Qed.

Example format_2f_pad : format_2f (1205 # 100) = "12.05".
Proof. vm_compute. reflexivity. Qed.

Example format_comma_2f_small : format_comma_2f (1205 # 100) = "12.05".
Proof. vm_compute. reflexivity. Qed.

Example format_comma_2f_thousands : format_comma_2f 30000 = "30,000.00".
Proof. vm_compute. reflexivity. Qed.

Example format_comma_2f_millions :
  format_comma_2f (1234007891 # 1000) = "1,234,007.89".
Proof. vm_compute. reflexivity. Qed.

Example format_comma_2f_carry : format_comma_2f (999995 # 1000) = "1,000.00".
Proof. vm_compute. reflexivity. Qed.

Example format_comma_2f_neg : format_comma_2f (-(12345 # 10)) = "-1,234.50".
Proof. vm_compute. reflexivity. Qed.

Lemma Qltb_true x y : Qltb x y = true <-> (x < y)%Q.
Proof.
  unfold Qltb. rewrite negb_true_iff, <- not_true_iff_false, Qle_bool_iff.
  split; [apply Qnot_le_lt | apply Qlt_not_le].
Qed.

Lemma Qltb_false x y : Qltb x y = false <-> (y <= x)%Q.
Proof.
  unfold Qltb. rewrite negb_false_iff. apply Qle_bool_iff.
Qed.

(** ** The balance calculator *)

Section BalanceFacts.

Variable crypto_prices : gmap string (option Q).
Variable stock_prices : gmap string Q.
Variable pl_api_key : string.

(** A priced holding worth nothing, or less, leaves every variable of the
    loop as it was. *)
Lemma crypto_step_nonpositive t crypto_id amount price :
  crypto_prices !! crypto_id = Some (Some price) ->
  (amount * price <= 0)%Q ->
  crypto_step crypto_prices t (crypto_id, amount) = t.
Proof.
  intros Hp Hv. unfold crypto_step. rewrite Hp.
  apply Qltb_false in Hv. by rewrite Hv.
Qed.

Lemma crypto_step_positive t crypto_id amount price :
  crypto_prices !! crypto_id = Some (Some price) ->
  (0 < amount * price)%Q ->
  crypto_step crypto_prices t (crypto_id, amount) =
    {| total_usd := (total_usd t + amount * price)%Q;
       assets_summary :=
         (assets_summary t
            ++ [CryptoLine crypto_id amount (format_comma_2f (amount * price))])%list;
       tally_log := tally_log t |}.
Proof.
  intros Hp Hv. unfold crypto_step. rewrite Hp.
  apply Qltb_true in Hv. by rewrite Hv.
Qed.

Lemma crypto_step_unpriced t crypto_id amount :
  crypto_prices !! crypto_id = None \/ crypto_prices !! crypto_id = Some None ->
  total_usd (crypto_step crypto_prices t (crypto_id, amount)) = total_usd t
  /\ assets_summary (crypto_step crypto_prices t (crypto_id, amount)) = assets_summary t.
Proof.
  unfold crypto_step. by intros [-> | ->].
Qed.

(** Earlier log lines pass through both loops untouched. *)
Lemma crypto_step_after_log log t h :
  crypto_step crypto_prices (after_log log t) h = after_log log (crypto_step crypto_prices t h).
Proof.
  destruct h as [crypto_id amount].
  unfold crypto_step, after_log; simpl.
  destruct (crypto_prices !! crypto_id) as [[price|]|]; simpl;
    [destruct (Qltb 0 (amount * price)); simpl | |];
    by rewrite ?app_assoc.
Qed.

Lemma stock_step_after_log log t h :
  stock_step stock_prices (after_log log t) h = after_log log (stock_step stock_prices t h).
Proof.
  unfold stock_step, after_log; simpl.
  destruct (stock_prices !! symbol h); simpl; by rewrite ?app_assoc.
Qed.

Lemma fold_crypto_after_log log l t :
  fold_left (crypto_step crypto_prices) l (after_log log t)
  = after_log log (fold_left (crypto_step crypto_prices) l t).
Proof.
  revert t. induction l as [|h l IH]; intros t; simpl; [done|].
  by rewrite crypto_step_after_log, IH.
Qed.

Lemma fold_stock_after_log log l t :
  fold_left (stock_step stock_prices) l (after_log log t)
  = after_log log (fold_left (stock_step stock_prices) l t).
Proof.
  revert t. induction l as [|h l IH]; intros t; simpl; [done|].
  by rewrite stock_step_after_log, IH.
Qed.

Lemma crypto_pass_holdings a t :
  crypto_pass crypto_prices a t = fold_left (crypto_step crypto_prices) (crypto_holdings a) t.
Proof.
  unfold crypto_pass, crypto_holdings.
  destruct (account_assets a) as [h|]; [|done]. by destruct (crypto h).
Qed.

Lemma stock_pass_holdings a t :
  stock_pass stock_prices a t = fold_left (stock_step stock_prices) (stock_holdings a) t.
Proof.
  unfold stock_pass, stock_holdings.
  destruct (account_assets a) as [h|]; [|done]. by destruct (stock h).
Qed.

Lemma account_tally_after_log log a :
  account_tally crypto_prices stock_prices log a
  = after_log log (account_tally crypto_prices stock_prices [] a).
Proof.
  unfold account_tally.
  rewrite !stock_pass_holdings, !crypto_pass_holdings.
  rewrite <- fold_stock_after_log, <- fold_crypto_after_log.
  unfold after_log; simpl. by rewrite app_nil_r.
Qed.

Lemma fold_account_step accounts commands log :
  (fold_left (account_step crypto_prices stock_prices pl_api_key) accounts
     (commands, log)).1
  = (commands ++ map (account_command crypto_prices stock_prices pl_api_key) accounts)%list.
Proof.
  revert commands log. induction accounts as [|a accounts IH];
    intros commands log; simpl.
  - by rewrite app_nil_r.
  - rewrite IH, <- app_assoc. simpl.
    by rewrite account_tally_after_log.
Qed.

(** One command per account, in the order of the accounts. *)
Lemma commands_are_mapped accounts :
  (calculate_account_balances crypto_prices stock_prices pl_api_key accounts).1
  = map (account_command crypto_prices stock_prices pl_api_key) accounts.
Proof. unfold calculate_account_balances. by rewrite fold_account_step. Qed.

Lemma fold_crypto_unpriced l t :
  (forall crypto_id amount, (crypto_id, amount) ∈ l ->
     crypto_prices !! crypto_id = None \/ crypto_prices !! crypto_id = Some None) ->
  total_usd (fold_left (crypto_step crypto_prices) l t) = total_usd t.
Proof.
  revert t. induction l as [|[crypto_id amount] l IH]; intros t Hl; simpl; [done|].
  rewrite IH by (intros c m Hin; apply (Hl c m); by right).
  apply crypto_step_unpriced, (Hl crypto_id amount). by left.
Qed.

Lemma fold_stock_unpriced l t :
  (forall h, h ∈ l -> stock_prices !! symbol h = None) ->
  total_usd (fold_left (stock_step stock_prices) l t) = total_usd t.
Proof.
  revert t. induction l as [|h l IH]; intros t Hl; simpl; [done|].
  rewrite IH by (intros h' Hin; apply Hl; by right).
  unfold stock_step. rewrite Hl; [done | by left].
Qed.

Lemma unpriced_without_assets a :
  account_assets a = None -> unpriced crypto_prices stock_prices a.
Proof.
  intros Ha. unfold unpriced, crypto_holdings, stock_holdings. rewrite Ha.
  split; [intros c m Hin | intros h Hin]; by apply elem_of_nil in Hin.
Qed.

Lemma unpriced_empty_holdings a :
  crypto_holdings a = [] -> stock_holdings a = [] ->
  unpriced crypto_prices stock_prices a.
Proof.
  intros Hc Hs. unfold unpriced. rewrite Hc, Hs.
  split; [intros c m Hin | intros h Hin]; by apply elem_of_nil in Hin.
Qed.

Lemma unpriced_total a :
  unpriced crypto_prices stock_prices a ->
  total_usd (account_tally crypto_prices stock_prices [] a) = 0%Q.
Proof.
  intros [Hc Hs]. unfold account_tally.
  rewrite stock_pass_holdings, crypto_pass_holdings.
  rewrite fold_stock_unpriced, fold_crypto_unpriced; done.
Qed.

End BalanceFacts.

(** ** Claims on [calculate_account_balances] *)

(** C1, as the specification words it, fails on the source: with one
    bitcoin priced at -5 the line item is worth -5 <= 0; it is left out of
    the summary, but the running total stays 0 instead of becoming -5, and
    the command carries the balance 0.00. *)
Lemma nonpositive_item_total_counterexample :
  bitcoin_negative !! "bitcoin" = Some (Some (-5)%Q)
  /\ (1 * -5 <= 0)%Q
  /\ assets_summary (account_tally bitcoin_negative ∅ [] one_bitcoin) = []
  /\ ~ (total_usd (account_tally bitcoin_negative ∅ [] one_bitcoin) == 0 + 1 * -5)%Q
  /\ (calculate_account_balances bitcoin_negative ∅ "KEY" [one_bitcoin]).1
     = ["window.projectionlabPluginAPI.updateAccount('a3', { balance: 0.00 }, { key: 'KEY' })"].
Proof.
  split; [reflexivity|]. split; [discriminate|].
  split; [reflexivity|]. split; [|vm_compute; reflexivity].
  vm_compute. discriminate.
Qed.

(** C1, amended: in [calculate_account_balances], a crypto holding whose
    price is present and not [None] and whose value, quantity times price,
    is zero or negative is excluded from the per-asset summary and adds
    nothing to the running total: commands and log are those of the same
    accounts with that holding deleted. *)
Theorem nonpositive_item_is_skipped
    (crypto_prices : gmap string (option Q)) (stock_prices : gmap string Q)
    (pl_api_key : string) (before after : list account) (a : account)
    (earlier later : list (string * Q)) (crypto_id : string) (amount price : Q) :
  crypto_holdings a = (earlier ++ (crypto_id, amount) :: later)%list ->
  crypto_prices !! crypto_id = Some (Some price) ->
  (amount * price <= 0)%Q ->
  calculate_account_balances crypto_prices stock_prices pl_api_key
    (before ++ a :: after)
  = calculate_account_balances crypto_prices stock_prices pl_api_key
      (before ++ with_crypto a (earlier ++ later) :: after).
Proof.
  intros Hh Hp Hv. unfold calculate_account_balances.
  rewrite !fold_left_app. simpl. f_equal.
  destruct (fold_left _ before _) as [commands log].
  unfold account_step. simpl.
  assert (account_tally crypto_prices stock_prices log a
          = account_tally crypto_prices stock_prices log
              (with_crypto a (earlier ++ later))) as ->; [|done].
  unfold account_tally.
  rewrite !stock_pass_holdings, !crypto_pass_holdings, Hh.
  replace (stock_holdings (with_crypto a (earlier ++ later)))
    with (stock_holdings a)
    by (unfold stock_holdings; simpl; by destruct (account_assets a)).
  replace (crypto_holdings (with_crypto a (earlier ++ later)))
    with (earlier ++ later)%list by done.
  rewrite !fold_left_app. cbn [fold_left].
  by rewrite (crypto_step_nonpositive _ _ _ _ _ Hp Hv).
Qed.

Lemma nonpositive_item_is_skipped_witness :
  calculate_account_balances bitcoin_negative ∅ "KEY" [one_bitcoin]
  = calculate_account_balances bitcoin_negative ∅ "KEY" [with_crypto one_bitcoin []].
Proof.
  apply (nonpositive_item_is_skipped bitcoin_negative ∅ "KEY" [] [] one_bitcoin
           [] [] "bitcoin" 1%Q (-5)%Q);
    [reflexivity | reflexivity | discriminate].
Defined.

(** Accumulation is exact and only the rendered balance is rounded: two
    holdings worth 0.004 each give 0.01; rounding each item would give
    0.00. *)
Example rounding_only_when_formatting :
  (calculate_account_balances
     {[ "bitcoin" := Some (4 # 1000)%Q; "ethereum" := Some (4 # 1000)%Q ]} ∅ "KEY"
     [{| account_id := "a"; account_name := "n";
         account_assets :=
           Some {| crypto := Some [("bitcoin", 1%Q); ("ethereum", 1%Q)];
                   stock := None |} |}]).1
  = ["window.projectionlabPluginAPI.updateAccount('a', { balance: 0.01 }, { key: 'KEY' })"].
Proof. vm_compute. reflexivity. Qed.


(** C10: every account gets a command, also one without an ['assets']
    entry, with empty holdings or without any holding that has a usable
    price; the command of such an account carries the balance 0.00. *)
Theorem unpriced_account_gets_zero_balance
    (crypto_prices : gmap string (option Q)) (stock_prices : gmap string Q)
    (pl_api_key : string) (accounts : list account) (i : nat) (a : account) :
  accounts !! i = Some a ->
  account_assets a = None
  \/ (crypto_holdings a = [] /\ stock_holdings a = [])
  \/ unpriced crypto_prices stock_prices a ->
  (calculate_account_balances crypto_prices stock_prices pl_api_key accounts).1 !! i
  = Some ("window.projectionlabPluginAPI.updateAccount('" ++ account_id a
          ++ "', { balance: 0.00 }, { key: '" ++ pl_api_key ++ "' })").
Proof.
  intros Hi Hcases.
  assert (unpriced crypto_prices stock_prices a) as Hu.
  { destruct Hcases as [Ha | [[Hc Hs] | Hu]];
      [by apply unpriced_without_assets | by apply unpriced_empty_holdings | done]. }
  rewrite commands_are_mapped, list_lookup_fmap, Hi. simpl.
  unfold account_command. by rewrite unpriced_total.
Qed.

Lemma unpriced_account_gets_zero_balance_witness :
  (calculate_account_balances bitcoin_60000 aapl_150 "KEY"
     [wallet; no_assets; unknown_coin]).1 !! 2%nat
  = Some "window.projectionlabPluginAPI.updateAccount('a5', { balance: 0.00 }, { key: 'KEY' })".
Proof.
  apply (unpriced_account_gets_zero_balance bitcoin_60000 aapl_150 "KEY"
           [wallet; no_assets; unknown_coin] 2 unknown_coin); [reflexivity|].
  right; right. split.
  - intros crypto_id amount Hin. apply list_elem_of_singleton in Hin.
    injection Hin as -> _. by left.
  - intros h Hin. apply list_elem_of_singleton in Hin. by subst h.
Defined.

(** ** The price pipeline *)

Lemma is_empty_dict_true {A} (d : gmap string A) : is_empty_dict d = true <-> d = ∅.
Proof.
  unfold is_empty_dict. rewrite <- map_to_list_empty_iff.
  destruct (map_to_list d); split; congruence.
Qed.

Section PipelineFacts.

Variable api : nat -> response.

(** The reading an id gets from a decoded body: its price, or [None]. *)
Lemma price_step_readable data st crypto_id :
  unreadable data crypto_id = false ->
  (price_step data st crypto_id).1
  = Some (<[crypto_id := mjoin (reading <$> data !! crypto_id)]> st.1).
Proof.
  destruct st as [prices w]. unfold price_step, unreadable.
  by destruct (data !! crypto_id) as [[price| |]|].
Qed.

Lemma price_step_unreadable data st crypto_id :
  unreadable data crypto_id = true -> price_step data st crypto_id = (None, st.2).
Proof.
  destruct st as [prices w]. unfold price_step, unreadable.
  by destruct (data !! crypto_id) as [[price| |]|].
Qed.

Lemma price_step_frame data st crypto_id :
  cache (price_step data st crypto_id).2 = cache st.2
  /\ writable (price_step data st crypto_id).2 = writable st.2
  /\ sent (price_step data st crypto_id).2 = sent st.2
  /\ now (price_step data st crypto_id).2 = now st.2.
Proof.
  destruct st as [prices w]. unfold price_step.
  by destruct (data !! crypto_id) as [[price| |]|].
Qed.

Lemma for_crypto_ids_frame data crypto_ids st :
  cache (for_crypto_ids data crypto_ids st).2 = cache st.2
  /\ writable (for_crypto_ids data crypto_ids st).2 = writable st.2
  /\ sent (for_crypto_ids data crypto_ids st).2 = sent st.2
  /\ now (for_crypto_ids data crypto_ids st).2 = now st.2.
Proof.
  revert st. induction crypto_ids as [|c crypto_ids IH]; intros st;
    cbn [for_crypto_ids]; [done|].
  pose proof (price_step_frame data st c) as Hstep.
  destruct (price_step data st c) as [[prices|] w']; cbn [snd] in Hstep; [|done].
  destruct (IH (prices, w')) as (-> & -> & -> & ->). done.
Qed.

(** The loop over the ids runs to its end exactly when the log line raises
    for none of them; it then holds the reading of each. *)
Lemma for_crypto_ids_readable data crypto_ids st :
  existsb (unreadable data) crypto_ids = false ->
  exists prices,
    (for_crypto_ids data crypto_ids st).1 = Some prices
    /\ forall crypto_id,
         prices !! crypto_id
         = if decide (crypto_id ∈ crypto_ids)
           then Some (mjoin (reading <$> data !! crypto_id))
           else st.1 !! crypto_id.
Proof.
  revert st. induction crypto_ids as [|c crypto_ids IH]; intros st Hall;
    cbn [for_crypto_ids].
  - exists st.1. split; [done|]. intros crypto_id.
    by rewrite decide_False by apply not_elem_of_nil.
  - cbn [existsb] in Hall. apply orb_false_elim in Hall as [Hc Hall].
    pose proof (price_step_readable data st c Hc) as Hstep.
    destruct (price_step data st c) as [[prices|] w']; cbn [fst] in Hstep; [|done].
    injection Hstep as ->.
    destruct (IH (<[c := mjoin (reading <$> data !! c)]> st.1, w') Hall)
      as (prices & Hres & Hlookup).
    exists prices. split; [done|]. intros crypto_id. rewrite Hlookup. cbn [fst].
    destruct (decide (crypto_id ∈ crypto_ids)) as [Hin|Hin].
    + by rewrite decide_True by (by right).
    + destruct (decide (c = crypto_id)) as [->|Hne].
      * rewrite lookup_insert_eq. by rewrite decide_True by (by left).
      * rewrite lookup_insert_ne by done.
        rewrite decide_False; [done|].
        intros Hc'. apply elem_of_cons in Hc' as [?|?]; congruence.
Qed.

Lemma for_crypto_ids_unreadable data crypto_ids st :
  existsb (unreadable data) crypto_ids = true ->
  (for_crypto_ids data crypto_ids st).1 = None.
Proof.
  revert st. induction crypto_ids as [|c crypto_ids IH]; intros st Hsome;
    cbn [for_crypto_ids]; [done|].
  cbn [existsb] in Hsome.
  destruct (unreadable data c) eqn:Hc.
  - by rewrite price_step_unreadable.
  - pose proof (price_step_readable data st c Hc) as Hstep.
    destruct (price_step data st c) as [[prices|] w']; [|done].
    by apply IH.
Qed.

(** An attempt sends one request and leaves the cache file alone. *)
Lemma try_attempt_frame crypto_ids retry_delay attempt w :
  let w' := tried_world (try_attempt api crypto_ids retry_delay attempt w) in
  cache w' = cache w /\ writable w' = writable w /\ sent w' = S (sent w).
Proof.
  unfold try_attempt. cbn zeta.
  change (sent (emit (InfoRequesting attempt) w)) with (sent w).
  destruct (api (sent w)) as [|status_code header content]; [done|].
  destruct (status_code =? 429)%nat.
  { destruct (retry_after_seconds retry_delay header) as [retry_after|]; [|done].
    by destruct (retry_after <? 0)%Z. }
  destruct ((400 <=? status_code) && (status_code <? 600))%nat; [done|].
  destruct content as [|data]; [done|].
  pose proof (for_crypto_ids_frame data crypto_ids
    (∅, count_request (join "," crypto_ids) (emit (InfoRequesting attempt) w)))
    as (Hc & Hw & Hs & _).
  by destruct (for_crypto_ids _ _ _) as [[prices|] w'].
Qed.

Lemma try_attempt_successful crypto_ids retry_delay attempt w data :
  successful crypto_ids (api (sent w)) = Some data ->
  exists prices w',
    try_attempt api crypto_ids retry_delay attempt w = Return prices w'
    /\ forall crypto_id,
         prices !! crypto_id
         = if decide (crypto_id ∈ crypto_ids) then Some (mjoin (data !! crypto_id))
           else None.
Proof.
  unfold try_attempt, successful. cbn zeta.
  change (sent (emit (InfoRequesting attempt) w)) with (sent w).
  destruct (api (sent w)) as [|status_code header [|data']]; try done.
  destruct (status_code =? 429)%nat; [done|]. cbn [orb].
  destruct ((400 <=? status_code) && (status_code <? 600))%nat; [done|]. cbn [orb].
  destruct (existsb (unreadable data') crypto_ids) eqn:Hall; [done|].
  intros [= <-].
  destruct (for_crypto_ids_readable data' crypto_ids
    (∅, count_request (join "," crypto_ids) (emit (InfoRequesting attempt) w)) Hall)
    as (prices & Hres & Hlookup).
  destruct (for_crypto_ids _ _ _) as [found w']. cbn [fst] in Hres. subst found.
  exists prices, w'. split; [done|]. intros crypto_id.
  rewrite Hlookup, lookup_fmap. cbn [fst]. by rewrite lookup_empty.
Qed.

Lemma try_attempt_unsuccessful crypto_ids retry_delay attempt w :
  successful crypto_ids (api (sent w)) = None ->
  forall prices w',
    try_attempt api crypto_ids retry_delay attempt w <> Return prices w'.
Proof.
  unfold try_attempt, successful. cbn zeta.
  change (sent (emit (InfoRequesting attempt) w)) with (sent w).
  destruct (api (sent w)) as [|status_code header content]; [done|].
  destruct (status_code =? 429)%nat.
  { destruct (retry_after_seconds retry_delay header) as [retry_after|]; [|done].
    by destruct (retry_after <? 0)%Z. }
  cbn [orb]. destruct ((400 <=? status_code) && (status_code <? 600))%nat; [done|].
  destruct content as [|data]; [done|]. cbn [orb].
  destruct (existsb (unreadable data) crypto_ids) eqn:Hsome; [|done].
  intros _ prices w'.
  pose proof (for_crypto_ids_unreadable data crypto_ids
    (∅, count_request (join "," crypto_ids) (emit (InfoRequesting attempt) w)) Hsome)
    as Hres.
  destruct (for_crypto_ids _ _ _) as [found w'']. cbn [fst] in Hres. by subst found.
Qed.

(** What the loop hands back is empty or has the requested ids as keys. *)
Lemma try_attempt_keys crypto_ids retry_delay attempt w prices w' crypto_id :
  try_attempt api crypto_ids retry_delay attempt w = Return prices w' ->
  crypto_id ∉ crypto_ids -> prices !! crypto_id = None.
Proof.
  intros Ht Hin.
  destruct (successful crypto_ids (api (sent w))) as [data|] eqn:Hs.
  - destruct (try_attempt_successful crypto_ids retry_delay attempt w data Hs)
      as (prices' & w'' & Ht' & Hl).
    rewrite Ht in Ht'. injection Ht' as -> ->.
    by rewrite Hl, decide_False.
  - by destruct (try_attempt_unsuccessful crypto_ids retry_delay attempt w Hs prices w').
Qed.

Lemma after_failure_frame max_retries retry_delay attempt w :
  cache (after_failure max_retries retry_delay attempt w) = cache w
  /\ writable (after_failure max_retries retry_delay attempt w) = writable w
  /\ sent (after_failure max_retries retry_delay attempt w) = sent w.
Proof. unfold after_failure. by destruct (_ <? _)%Z. Qed.

Lemma for_attempts_cons crypto_ids max_retries retry_delay attempt range w :
  for_attempts api crypto_ids max_retries retry_delay (attempt :: range) w
  = match try_attempt api crypto_ids retry_delay attempt w with
    | Return prices w' => (prices, w')
    | Continue w' => for_attempts api crypto_ids max_retries retry_delay range w'
    | Except w' =>
        for_attempts api crypto_ids max_retries retry_delay range
          (after_failure max_retries retry_delay attempt w')
    end.
Proof. reflexivity. Qed.

Lemma for_attempts_frame crypto_ids max_retries retry_delay range w :
  cache (for_attempts api crypto_ids max_retries retry_delay range w).2 = cache w
  /\ writable (for_attempts api crypto_ids max_retries retry_delay range w).2
     = writable w.
Proof.
  revert w. induction range as [|attempt range IH]; intros w; [done|].
  rewrite for_attempts_cons.
  pose proof (try_attempt_frame crypto_ids retry_delay attempt w) as (Hc & Hw & _).
  destruct (try_attempt api crypto_ids retry_delay attempt w) as [prices w'|w'|w'];
    simpl in Hc, Hw; [done| |].
  - destruct (IH w') as [-> ->]. done.
  - destruct (IH (after_failure max_retries retry_delay attempt w')) as [-> ->].
    destruct (after_failure_frame max_retries retry_delay attempt w')
      as (-> & -> & _). done.
Qed.

Lemma for_attempts_keys crypto_ids max_retries retry_delay range w crypto_id :
  crypto_id ∉ crypto_ids ->
  (for_attempts api crypto_ids max_retries retry_delay range w).1 !! crypto_id = None.
Proof.
  intros Hin. revert w. induction range as [|attempt range IH]; intros w; [done|].
  rewrite for_attempts_cons.
  destruct (try_attempt api crypto_ids retry_delay attempt w) as [prices w'|w'|w']
    eqn:Ht; [|apply IH..].
  simpl. by eapply try_attempt_keys.
Qed.

(** The first successful reply decides the result. *)
Lemma for_attempts_first_success crypto_ids max_retries retry_delay range w k data :
  k < length range ->
  (forall i, i < k -> successful crypto_ids (api (sent w + i)) = None) ->
  successful crypto_ids (api (sent w + k)) = Some data ->
  forall crypto_id,
    (for_attempts api crypto_ids max_retries retry_delay range w).1 !! crypto_id
    = if decide (crypto_id ∈ crypto_ids) then Some (mjoin (data !! crypto_id))
      else None.
Proof.
  revert w k. induction range as [|attempt range IH]; intros w k Hk Hfail Hok;
    [simpl in Hk; lia|].
  rewrite for_attempts_cons.
  pose proof (try_attempt_frame crypto_ids retry_delay attempt w) as (_ & _ & Hsent).
  destruct k as [|k].
  - rewrite Nat.add_0_r in Hok.
    destruct (try_attempt_successful crypto_ids retry_delay attempt w data Hok)
      as (prices & w' & -> & Hl). done.
  - assert (successful crypto_ids (api (sent w)) = None) as Hfirst.
    { rewrite <- (Nat.add_0_r (sent w)). apply Hfail. lia. }
    pose proof (try_attempt_unsuccessful crypto_ids retry_delay attempt w Hfirst)
      as Hnot.
    simpl in Hk.
    destruct (try_attempt api crypto_ids retry_delay attempt w) as [prices w'|w'|w'];
      simpl in Hsent; [by destruct (Hnot prices w')| |].
    + apply (IH w' k); [lia| |].
      * intros i Hi. rewrite Hsent.
        replace (S (sent w) + i) with (sent w + S i) by lia. apply Hfail. lia.
      * rewrite Hsent. by replace (S (sent w) + k) with (sent w + S k) by lia.
    + destruct (after_failure_frame max_retries retry_delay attempt w')
        as (_ & _ & Hsent').
      apply (IH _ k); [lia| |]; rewrite Hsent', Hsent.
      * intros i Hi.
        replace (S (sent w) + i) with (sent w + S i) by lia. apply Hfail. lia.
      * by replace (S (sent w) + k) with (sent w + S k) by lia.
Qed.


End PipelineFacts.

(** ** Claims on [get_crypto_prices] *)



(** A reply that gives [null] as the ['usd'] of a requested id is not a
    successful one.  With status 200 and a body that prices ethereum and
    has [null] for bitcoin, the function logs the price of ethereum,
    stores the [null] and fails while rendering it for the log; the attempt
    ends in an [except] clause, and after three requests and the backoff
    sleeps the empty mapping is returned.  The same body with the key
    ['usd'] missing for bitcoin is accepted at the first request, bitcoin
    being recorded as [None]. *)
Example null_price_reply_is_retried :
  let ids := Some ["ethereum"; "bitcoin"] in
  let run := get_crypto_prices null_bitcoin ids 3 5 (cold_start 0) in
  let sibling := get_crypto_prices unpriced_bitcoin ids 3 5 (cold_start 0) in
  successful ["ethereum"; "bitcoin"] (null_bitcoin 0) = None
  /\ raises ["ethereum"; "bitcoin"] 5 (null_bitcoin 0) = true
  /\ run.1 = ∅
  /\ requests (events run.2) = 3
  /\ events run.2
     = [InfoRequesting 0; HttpGet "ethereum,bitcoin"; InfoPrice "ethereum" 3000;
        ErrorAttempt 0; InfoBackoff 5; Sleep 5;
        InfoRequesting 1; HttpGet "ethereum,bitcoin"; InfoPrice "ethereum" 3000;
        ErrorAttempt 1; InfoBackoff 10; Sleep 10;
        InfoRequesting 2; HttpGet "ethereum,bitcoin"; InfoPrice "ethereum" 3000;
        ErrorAttempt 2; ErrorMaxRetries]
  /\ sibling.1 = {[ "ethereum" := Some 3000%Q; "bitcoin" := None ]}
  /\ requests (events sibling.2) = 1.
Proof.
  cbn zeta. repeat split; vm_compute; reflexivity.
Qed.

(** C3, as the specification words it, fails on the source.  The first
    request is answered by a 429 with [Retry-After: 2], the next two are
    not answered and the fourth would be.  If the 429 left the attempts and
    the backoff untouched, the call would go on as a call started after the
    two seconds does: sleep 5 and 10 and return the price from the fourth
    request.  It sleeps 2 and then 10, gives up after the third request and
    returns the empty mapping. *)
Lemma rate_limit_keeps_attempts_counterexample :
  let ids := Some ["bitcoin"] in
  let run := get_crypto_prices throttled_then_down ids 3 5 (cold_start 0) in
  let resumed :=
    get_crypto_prices throttled_then_down ids 3 5
      (sleep 2 (count_request "bitcoin" (cold_start 0))) in
  throttled_then_down 0 = Response 429 (RetryAfterInt 2) BodyMalformed
  /\ run.1 = ∅
  /\ sleeps (events run.2) = [2; 10]%Z
  /\ requests (events run.2) = 3
  /\ resumed.1 = bitcoin_60000
  /\ sleeps (events resumed.2) = [2; 5; 10]%Z
  /\ requests (events resumed.2) = 4
  /\ run.1 <> resumed.1
  /\ sleeps (events run.2) <> sleeps (events resumed.2).
Proof.
  cbn zeta. repeat split; try (vm_compute; reflexivity); vm_compute; discriminate.
Qed.

(** C3, amended: when an attempt of [get_crypto_prices] gets a 429 whose
    [Retry-After] header is missing or holds a non-negative integer, the
    function sleeps that many seconds ([retry_delay] when the header is
    missing), does not take the exponential backoff sleep, and goes on with
    the next value of [attempt]: the 429 uses up one of the [max_retries]
    attempts, later backoff delays are computed from the attempt numbers
    that follow it, and after a 429 on the last attempt the empty mapping is
    returned. *)
Theorem rate_limit_uses_up_the_attempt
    (api : nat -> response) (crypto_ids : list string)
    (max_retries retry_delay attempt : nat) (range : list nat) (w : world)
    (header : retry_after_header) (content : body) (seconds : Z) :
  api (sent w) = Response 429 header content ->
  retry_after_seconds retry_delay header = Some seconds ->
  (0 <= seconds)%Z ->
  let slept :=
    sleep seconds
      (emit (WarnRateLimit seconds)
         (count_request (join "," crypto_ids) (emit (InfoRequesting attempt) w))) in
  for_attempts api crypto_ids max_retries retry_delay (attempt :: range) w
  = for_attempts api crypto_ids max_retries retry_delay range slept
  /\ (range = [] ->
      for_attempts api crypto_ids max_retries retry_delay (attempt :: range) w
      = (∅, slept)).
Proof.
  intros Hreply Hheader Hnonneg slept.
  assert (for_attempts api crypto_ids max_retries retry_delay (attempt :: range) w
          = for_attempts api crypto_ids max_retries retry_delay range slept) as Heq.
  { rewrite for_attempts_cons. unfold try_attempt. cbn zeta.
    change (sent (emit (InfoRequesting attempt) w)) with (sent w).
    rewrite Hreply. cbn [Nat.eqb]. rewrite Hheader.
    apply Z.ltb_ge in Hnonneg. by rewrite Hnonneg. }
  split; [done|]. intros ->. by rewrite Heq.
Qed.

Lemma rate_limit_uses_up_the_attempt_witness :
  for_attempts throttled_then_down ["bitcoin"] 3 5 [0; 1; 2] (cold_start 0)
  = for_attempts throttled_then_down ["bitcoin"] 3 5 [1; 2]
      (sleep 2 (emit (WarnRateLimit 2)
         (count_request "bitcoin" (emit (InfoRequesting 0) (cold_start 0))))).
Proof.
  apply (rate_limit_uses_up_the_attempt throttled_then_down ["bitcoin"] 3 5 0 [1; 2]
           (cold_start 0) (RetryAfterInt 2) BodyMalformed 2);
    [reflexivity | reflexivity | lia].
Defined.

(** A header that [int] rejects sends the attempt to the [except] clauses
    and so to the exponential backoff. *)
Example rate_limit_with_date_header :
  sleeps (events (get_crypto_prices
                    (fun _ => Response 429 RetryAfterText BodyMalformed)
                    (Some ["bitcoin"]) 3 5 (cold_start 0)).2)
  = [5; 10]%Z.
Proof. vm_compute. reflexivity. Qed.

(** ** The cache *)

Section CacheFacts.

Variable api : nat -> response.

Lemma log_cached_frame crypto_ids items w :
  cache (log_cached crypto_ids items w).1 = cache w
  /\ writable (log_cached crypto_ids items w).1 = writable w
  /\ sent (log_cached crypto_ids items w).1 = sent w
  /\ now (log_cached crypto_ids items w).1 = now w.
Proof.
  revert w. induction items as [|[crypto_id price] items IH]; intros w;
    cbn [log_cached]; [done|].
  case_bool_decide; [|apply IH].
  destruct price as [p|]; [|done].
  destruct (IH (emit (InfoCachedPrice crypto_id p) w)) as (-> & -> & -> & ->).
  done.
Qed.

(** The loop that logs a cache hit runs to its end exactly when no
    requested id is cached with the price [None]. *)
Lemma log_cached_completes crypto_ids items w :
  (log_cached crypto_ids items w).2 = true
  <-> forall crypto_id, crypto_id ∈ crypto_ids -> (crypto_id, None) ∉ items.
Proof.
  revert w. induction items as [|[c price] items IH]; intros w; cbn [log_cached].
  - split; [|done]. intros _ crypto_id _. apply not_elem_of_nil.
  - case_bool_decide as Hc.
    + destruct price as [p|].
      * rewrite IH. split; intros H crypto_id Hin.
        -- rewrite not_elem_of_cons. split; [done | by apply H].
        -- specialize (H crypto_id Hin). rewrite not_elem_of_cons in H. tauto.
      * split; [done|]. intros H. destruct (H c Hc). by left.
    + rewrite IH. split; intros H crypto_id Hin.
      * rewrite not_elem_of_cons. split; [|by apply H].
        intros [= -> _]. done.
      * specialize (H crypto_id Hin). rewrite not_elem_of_cons in H. tauto.
Qed.

Lemma read_cache_frame crypto_ids cache_duration w :
  cache (read_cache crypto_ids cache_duration w).2 = cache w
  /\ writable (read_cache crypto_ids cache_duration w).2 = writable w
  /\ sent (read_cache crypto_ids cache_duration w).2 = sent w
  /\ now (read_cache crypto_ids cache_duration w).2 = now w.
Proof.
  unfold read_cache.
  destruct (cache w) as [[|timestamp prices]|] eqn:Hcache; [done| |done].
  destruct (Qltb _ _); [|done].
  destruct (filter _ crypto_ids); [|done].
  pose proof (log_cached_frame crypto_ids (map_to_list (default ∅ prices))
                (emit InfoCacheHit w)) as (Hc & Hw & Hs & Hn).
  destruct (log_cached _ _ _) as [w' []]; simpl in *;
    by rewrite ?Hc, ?Hw, ?Hs, ?Hn.
Qed.

Lemma filter_missing_nil (prices : gmap string (option Q)) (crypto_ids : list string) :
  filter (fun crypto_id => prices !! crypto_id = None) crypto_ids = []
  <-> forall crypto_id, crypto_id ∈ crypto_ids -> is_Some (prices !! crypto_id).
Proof.
  induction crypto_ids as [|c crypto_ids IH].
  - split; [|done]. intros _ crypto_id Hin. by apply elem_of_nil in Hin.
  - rewrite filter_cons. destruct (decide (prices !! c = None)) as [Hc|Hc].
    + split; [done|]. intros H. destruct (H c) as [v Hv]; [by left|]. congruence.
    + rewrite IH. split; intros H crypto_id Hin.
      * apply elem_of_cons in Hin as [->|Hin]; [|by apply H].
        by apply not_eq_None_Some.
      * apply H. by right.
Qed.

(** When the cache file holds a record, the cache is used exactly when
    the record is younger than the TTL and holds a price other than
    [None] for every requested id. *)
Lemma read_cache_hit_iff crypto_ids cache_duration w timestamp prices :
  cache w = Some (CacheJson timestamp prices) ->
  is_Some (read_cache crypto_ids cache_duration w).1
  <-> (now w - default 0%Q timestamp < inject_Z cache_duration)%Q
      /\ forall crypto_id, crypto_id ∈ crypto_ids ->
           exists price, default ∅ prices !! crypto_id = Some (Some price).
Proof.
  intros Hcache. unfold read_cache. rewrite Hcache.
  destruct (Qltb _ _) eqn:Hfresh.
  2:{ apply Qltb_false in Hfresh. split; [by intros [? [=]]|].
      intros [Hlt _]. by apply Qlt_not_le in Hlt. }
  apply Qltb_true in Hfresh.
  destruct (filter _ crypto_ids) as [|m missing] eqn:Hmissing.
  - pose proof (proj1 (filter_missing_nil _ _) Hmissing) as Hpresent.
    pose proof (log_cached_completes crypto_ids (map_to_list (default ∅ prices))
                  (emit InfoCacheHit w)) as Hlog.
    destruct (log_cached _ _ _) as [w' [|]]; simpl in Hlog.
    + split; [|by eexists]. intros _. split; [done|].
      intros crypto_id Hin. destruct (Hpresent crypto_id Hin) as [[price|] Hp];
        [by exists price|].
      destruct (proj1 Hlog eq_refl crypto_id Hin). by apply elem_of_map_to_list.
    + split; [by intros [? [=]]|]. intros [_ Hall].
      assert (false = true); [|done]. apply Hlog. intros crypto_id Hin Hnone.
      apply elem_of_map_to_list in Hnone.
      destruct (Hall crypto_id Hin) as [price Hp]. congruence.
  - split; [by intros [? [=]]|]. intros [_ Hall].
    assert (m :: missing = []); [|done].
    rewrite <- Hmissing. apply (filter_missing_nil (default ∅ prices)).
    intros crypto_id Hin. destruct (Hall crypto_id Hin) as [price Hp]. by eexists.
Qed.

(** A hit returns the whole cached mapping. *)
Lemma read_cache_returns crypto_ids cache_duration w prices :
  (read_cache crypto_ids cache_duration w).1 = Some prices ->
  exists timestamp, cache w = Some (CacheJson timestamp (Some prices))
    \/ (cache w = Some (CacheJson timestamp None) /\ prices = ∅).
Proof.
  unfold read_cache.
  destruct (cache w) as [[|timestamp cached]|]; [done| |done].
  destruct (Qltb _ _); [|done].
  destruct (filter _ crypto_ids); [|done].
  destruct (log_cached _ _ _) as [w' [|]]; [|done].
  intros [= <-]. exists timestamp. destruct cached; [by left | by right].
Qed.

Lemma get_crypto_prices_frame crypto_ids max_retries retry_delay w :
  cache (get_crypto_prices api crypto_ids max_retries retry_delay w).2 = cache w
  /\ writable (get_crypto_prices api crypto_ids max_retries retry_delay w).2
     = writable w.
Proof. apply for_attempts_frame. Qed.

Lemma get_crypto_prices_keys crypto_ids max_retries retry_delay w crypto_id :
  crypto_id ∉ default DEFAULT_CRYPTO_IDS crypto_ids ->
  (get_crypto_prices api crypto_ids max_retries retry_delay w).1 !! crypto_id = None.
Proof. apply for_attempts_keys. Qed.

End CacheFacts.

(** ** Claims on [get_cached_crypto_prices] *)

(** C9: when the fetch made after a cache miss returns the empty mapping,
    [get_cached_crypto_prices] writes nothing and the cache file is as it
    was; the file changes only when a fetch after a miss returned a mapping
    that is not empty. *)
Theorem empty_fetch_leaves_cache
    (api : nat -> response) (accounts : list account)
    (crypto_ids : option (list string)) (cache_duration : Z) (w : world) :
  let ids := requested_ids accounts crypto_ids in
  let r := get_cached_crypto_prices api accounts crypto_ids cache_duration w in
  (forall w1,
      read_cache ids cache_duration w = (None, w1) ->
      (get_crypto_prices api (Some ids) 3 5 (emit InfoFresh w1)).1 = ∅ ->
      r.1 = ∅ /\ cache r.2 = cache w)
  /\ (cache r.2 <> cache w ->
      exists w1,
        read_cache ids cache_duration w = (None, w1)
        /\ (get_crypto_prices api (Some ids) 3 5 (emit InfoFresh w1)).1 <> ∅).
Proof.
  cbn zeta. unfold get_cached_crypto_prices.
  fold (requested_ids accounts crypto_ids).
  pose proof (read_cache_frame (requested_ids accounts crypto_ids) cache_duration w)
    as (Hc1 & _).
  destruct (read_cache _ _ w) as [[cached|] w1]; simpl in Hc1.
  { split; [by intros w1' [=]|]. simpl. by rewrite Hc1. }
  pose proof (get_crypto_prices_frame api (Some (requested_ids accounts crypto_ids))
                3 5 (emit InfoFresh w1)) as (Hc2 & _).
  destruct (get_crypto_prices _ _ _ _ _) as [prices w2] eqn:Hfetch; simpl in Hc2.
  change (cache (emit InfoFresh w1)) with (cache w1) in Hc2.
  assert (is_empty_dict (∅ : gmap string (option Q)) = true) as Hnil
    by by apply is_empty_dict_true.
  split.
  - intros w1' [= <-]. rewrite Hfetch. simpl. intros ->.
    rewrite Hnil. simpl. split; [done | congruence].
  - destruct (is_empty_dict prices) eqn:Hempty.
    + simpl. intros Hne. destruct Hne. congruence.
    + intros _. exists w1. split; [done|]. rewrite Hfetch. simpl. intros ->.
      congruence.
Qed.

Lemma empty_fetch_leaves_cache_witness :
  (get_cached_crypto_prices unreachable [] (Some ["bitcoin"]) 300 stale_two_coins).1 = ∅
  /\ cache (get_cached_crypto_prices unreachable [] (Some ["bitcoin"]) 300
              stale_two_coins).2
     = cache stale_two_coins.
Proof.
  apply (proj1 (empty_fetch_leaves_cache unreachable [] (Some ["bitcoin"]) 300
                  stale_two_coins)
           (emit InfoCacheExpired stale_two_coins));
    vm_compute; reflexivity.
Defined.

(** C5: a write of the cache replaces the record that was there.  After
    [get_cached_crypto_prices] has fetched a mapping for the requested ids
    and written it, the file holds the time of the write and that mapping
    and nothing else: no id outside the request can be read from it,
    whatever the earlier record held. *)
Theorem cache_write_replaces
    (api : nat -> response) (accounts : list account)
    (crypto_ids : option (list string)) (cache_duration : Z) (w w1 : world) :
  let ids := requested_ids accounts crypto_ids in
  let fetched := get_crypto_prices api (Some ids) 3 5 (emit InfoFresh w1) in
  let r := get_cached_crypto_prices api accounts crypto_ids cache_duration w in
  read_cache ids cache_duration w = (None, w1) ->
  fetched.1 <> ∅ ->
  writable w = true ->
  r.1 = fetched.1
  /\ cache r.2 = Some (CacheJson (Some (now fetched.2)) (Some fetched.1))
  /\ now r.2 = now fetched.2
  /\ forall crypto_id, crypto_id ∉ ids -> cached_price r.2 crypto_id = None.
Proof.
  cbn zeta. intros Hmiss Hfetched Hwritable.
  unfold get_cached_crypto_prices. fold (requested_ids accounts crypto_ids).
  rewrite Hmiss.
  pose proof (read_cache_frame (requested_ids accounts crypto_ids) cache_duration w)
    as (_ & Hw1 & _).
  rewrite Hmiss in Hw1. simpl in Hw1.
  pose proof (get_crypto_prices_frame api (Some (requested_ids accounts crypto_ids))
                3 5 (emit InfoFresh w1)) as (_ & Hw2).
  pose proof (get_crypto_prices_keys api (Some (requested_ids accounts crypto_ids))
                3 5 (emit InfoFresh w1)) as Hkeys.
  destruct (get_crypto_prices _ _ _ _ _) as [prices w2].
  cbn [fst snd default] in *.
  change (writable (emit InfoFresh w1)) with (writable w1) in Hw2.
  destruct (is_empty_dict prices) eqn:Hempty.
  { apply is_empty_dict_true in Hempty. done. }
  rewrite Hw2, Hw1, Hwritable. cbn [fst snd]. repeat split; done.
Qed.

Lemma cache_write_replaces_witness :
  let r := get_cached_crypto_prices bitcoin_only [] (Some ["bitcoin"]) 300
             stale_two_coins in
  cached_price stale_two_coins "ethereum" = Some (Some 3000%Q)
  /\ cache r.2 = Some (CacheJson (Some 1000%Q) (Some bitcoin_60000))
  /\ cached_price r.2 "ethereum" = None.
Proof.
  pose proof (cache_write_replaces bitcoin_only [] (Some ["bitcoin"]) 300
                stale_two_coins (emit InfoCacheExpired stale_two_coins)
                ltac:(vm_compute; reflexivity) ltac:(vm_compute; discriminate)
                eq_refl) as (_ & Hcache & _ & Hgone).
  split; [vm_compute; reflexivity|]. split.
  - rewrite Hcache. vm_compute. reflexivity.
  - apply Hgone. intros Hin. apply list_elem_of_singleton in Hin. discriminate.
Defined.

(** C4 does not hold on the source where the record holds the price [None]
    for a requested id -- the record a first call writes when the provider
    does not know one of the coins.  One second later, well within the TTL
    and with every requested id present in the record, the second call
    reports the hit, fails while logging the cached prices and fetches
    again. *)
Lemma cached_none_price_is_fetched_again :
  let ids := Some ["bitcoin"; "dogecoin"] in
  let first := get_cached_crypto_prices bitcoin_only [] ids 300 (cold_start 1000) in
  let later := sleep 1 first.2 in
  let second := get_cached_crypto_prices bitcoin_only [] ids 300 later in
  cache later
    = Some (CacheJson (Some 1000%Q)
              (Some {[ "bitcoin" := Some 60000%Q; "dogecoin" := None ]}))
  /\ (now later - 1000 < inject_Z 300)%Q
  /\ cached_price later "bitcoin" = Some (Some 60000%Q)
  /\ cached_price later "dogecoin" = Some None
  /\ (read_cache ["bitcoin"; "dogecoin"] 300 later).1 = None
  /\ sent first.2 = 1
  /\ sent second.2 = 2
  /\ events second.2
     = (events later
          ++ [InfoCacheHit; InfoCachedPrice "bitcoin" 60000; WarnCacheRead; InfoFresh;
              InfoRequesting 0; HttpGet "bitcoin,dogecoin"; InfoPrice "bitcoin" 60000;
              WarnPriceNotFound "dogecoin"; InfoCacheUpdated])%list.
Proof.
  cbn zeta. repeat split; vm_compute; reflexivity.
Qed.

(** ** Claims on [handle_mfa_code] *)

Lemma last_nonempty_default {A} (x d : A) (l : list A) :
  List.last (x :: l) d = List.last l x.
Proof.
  revert x d. induction l as [|y l IH]; intros x d; [done|].
  change (List.last (x :: y :: l) d) with (List.last (y :: l) d).
  by rewrite !IH.
Qed.

(** C2, as the specification words it, fails on the source: against a page
    that rejects every code, with a generator whose code changes twice, the
    function submits three codes -- two retries -- before it reports
    failure. *)
Lemma mfa_single_retry_counterexample :
  let r := handle_mfa_code always_rejects rolling_codes 1000 "111111" mfa_start in
  (forall n, always_rejects n = Rejected)
  /\ r.1 = false
  /\ entered r.2 = ["111111"; "222222"; "333333"]
  /\ ~ (length (entered r.2) <= 2).
Proof.
  cbn zeta. split; [done|]. split; [reflexivity|]. split; [reflexivity|].
  vm_compute. lia.
Qed.

(** C2, amended: when the page rejects every submission, [handle_mfa_code]
    generates a fresh code after each rejection and submits it in a nested
    call as long as that code is non-empty and differs from the one just
    rejected, however many times that happens (the nesting depth apart); it
    reports failure after the first rejection whose fresh code is the same,
    empty or missing.  The codes submitted are the first one and every
    differing fresh code, each once. *)
Theorem mfa_retries_while_codes_differ
    (page : nat -> reaction) (totp : nat -> option string)
    (fresh : list string) (depth : nat) (mfa_code : string) (s : mfa_state) :
  (forall i, i <= length fresh -> page (length (entered s) + i) = Rejected) ->
  (forall i code, fresh !! i = Some code -> totp (totp_calls s + i) = Some code) ->
  differing mfa_code fresh ->
  (totp (totp_calls s + length fresh) = None
   \/ totp (totp_calls s + length fresh) = Some ""
   \/ totp (totp_calls s + length fresh) = Some (List.last fresh mfa_code)) ->
  length fresh < depth ->
  handle_mfa_code page totp depth mfa_code s
  = (false,
     {| entered := (entered s ++ mfa_code :: fresh)%list;
        totp_calls := totp_calls s + length fresh + 1 |}).
Proof.
  revert depth mfa_code s.
  induction fresh as [|code fresh IH]; intros depth mfa_code s Hpage Htotp Hdiff Hstop Hdepth;
    (destruct depth as [|depth]; [simpl in Hdepth; lia|]); cbn [handle_mfa_code].
  - rewrite <- (Nat.add_0_r (length (entered s))), Hpage by (simpl; lia).
    cbn [enter tick_totp totp_calls entered].
    simpl in Hstop. rewrite Nat.add_0_r in Hstop.
    destruct Hstop as [-> | [-> | ->]]; cbn [String.eqb negb andb];
      rewrite ?String.eqb_refl, ?andb_false_r;
      unfold tick_totp, enter; cbn [entered totp_calls length];
      do 2 f_equal; lia.
  - rewrite <- (Nat.add_0_r (length (entered s))), Hpage by (simpl; lia).
    cbn [enter tick_totp totp_calls entered].
    rewrite <- (Nat.add_0_r (totp_calls s)), (Htotp 0 code eq_refl).
    destruct Hdiff as (Hne & Hprev & Hdiff).
    apply String.eqb_neq in Hne, Hprev. rewrite Hne, Hprev. cbn [negb andb].
    rewrite Nat.add_0_r.
    rewrite (IH depth code); unfold tick_totp, enter; cbn [entered totp_calls].
    + rewrite <- app_assoc. cbn [app length]. do 2 f_equal. lia.
    + intros i Hi. rewrite length_app. cbn [length].
      replace (length (entered s) + 1 + i) with (length (entered s) + S i) by lia.
      apply Hpage. simpl. lia.
    + intros i c Hc.
      replace (S (totp_calls s) + i) with (totp_calls s + S i) by lia.
      by apply Htotp.
    + done.
    + replace (S (totp_calls s) + length fresh)
        with (totp_calls s + length (code :: fresh)) by (simpl; lia).
      destruct Hstop as [H | [H | H]]; [by left | right; by left | right; right].
      rewrite H. f_equal. apply last_nonempty_default.
    + simpl in Hdepth. lia.
Qed.

Lemma mfa_retries_while_codes_differ_witness :
  handle_mfa_code always_rejects rolling_codes 1000 "111111" mfa_start
  = (false,
     {| entered := ["111111"; "222222"; "333333"]; totp_calls := 4 |}).
Proof.
  apply (mfa_retries_while_codes_differ always_rejects rolling_codes
           ["222222"; "333333"] 1000 "111111" mfa_start).
  - reflexivity.
  - intros [|[|[|i]]] code; simpl; intros [= <-]; reflexivity.
  - simpl. repeat split; discriminate.
  - right; right. reflexivity.
  - simpl. lia.
Defined.

(** In the case the specification describes -- the fresh code differs once
    and not again -- there is one retry. *)
Example mfa_one_retry :
  handle_mfa_code always_rejects
    (fun n => match n with 0 => Some "111111" | _ => Some "222222" end)
    1000 "111111" mfa_start
  = (false, {| entered := ["111111"; "222222"]; totp_calls := 3 |}).
Proof. reflexivity. Qed.

(** ** Claims on the command loop of [update_projectionlab] *)

Example redaction_of_plain_command :
  update_projectionlab_loop script_succeeds
    (calculate_account_balances bitcoin_60000 aapl_150 "SECRET" [brokerage]).1 [] []
  = (true,
     [InfoExecuting
        "window.projectionlabPluginAPI.updateAccount('a1', { balance: 1500.00 }, { key: '***REDACTED***' })";
      InfoExecuted],
     ["window.projectionlabPluginAPI.updateAccount('a1', { balance: 1500.00 }, { key: 'SECRET' })"]).
Proof. vm_compute. reflexivity. Qed.

(** C8 does not hold on the source for an account id that ends with the
    words [key: ]: in the command the id is followed by a quote, the
    redaction takes what follows the first [key: '] for the credential, and
    the line logged for the command shows the write key in clear. *)
Lemma credential_logged_in_clear :
  let commands :=
    (calculate_account_balances bitcoin_60000 aapl_150 "SECRET" [vault]).1 in
  let line :=
    "window.projectionlabPluginAPI.updateAccount('vault key: '***REDACTED***key: 'SECRET' })" in
  commands
  = ["window.projectionlabPluginAPI.updateAccount('vault key: ', { balance: 0.00 }, { key: 'SECRET' })"]
  /\ update_projectionlab_loop script_succeeds commands [] []
     = (true, [InfoExecuting line; InfoExecuted], commands)
  /\ contains "SECRET" line = true.
Proof.
  cbn zeta. repeat split; vm_compute; reflexivity.
Qed.

(** * Further properties of the code *)

(** ** [get_crypto_ids_from_accounts] *)

Lemma fold_add_holding (l : list (string * Q)) (s : gset string) (crypto_id : string) :
  crypto_id ∈ fold_left (fun s holding => s ∪ {[holding.1]}) l s
  <-> crypto_id ∈ s \/ crypto_id ∈ map fst l.
Proof.
  revert s. induction l as [|h l IH]; intros s; cbn [fold_left map].
  - rewrite elem_of_nil. tauto.
  - rewrite IH, elem_of_union, elem_of_singleton, elem_of_cons. tauto.
Qed.

Lemma fold_add_account (accounts : list account) (s : gset string) (crypto_id : string) :
  crypto_id ∈ fold_left
      (fun (crypto_ids : gset string) (a : account) =>
         match account_assets a with
         | Some h =>
             match crypto h with
             | Some crypto_assets =>
                 fold_left (fun s holding => s ∪ {[holding.1]}) crypto_assets crypto_ids
             | None => crypto_ids
             end
         | None => crypto_ids
         end) accounts s
  <-> crypto_id ∈ s \/ crypto_id ∈ held_ids accounts.
Proof.
  revert s. induction accounts as [|a accounts IH]; intros s;
    cbn [fold_left held_ids flat_map].
  - rewrite elem_of_nil. tauto.
  - rewrite IH. fold (held_ids accounts). rewrite elem_of_app.
    unfold crypto_holdings.
    destruct (account_assets a) as [h|]; [destruct (crypto h) as [l|]|];
      cbn [default map]; rewrite ?fold_add_holding, ?elem_of_nil; tauto.
Qed.

(** X1: the list [get_crypto_ids_from_accounts] returns has no duplicates
    and holds exactly the coin ids that are keys of some account's crypto
    holdings; when no account holds any coin it holds exactly the two
    default ids.  It is never empty. *)
Theorem crypto_ids_are_the_held_ids (accounts : list account) :
  NoDup (get_crypto_ids_from_accounts accounts)
  /\ (forall crypto_id,
        crypto_id ∈ get_crypto_ids_from_accounts accounts
        <-> match held_ids accounts with
            | [] => crypto_id ∈ DEFAULT_CRYPTO_IDS
            | _ => crypto_id ∈ held_ids accounts
            end)
  /\ get_crypto_ids_from_accounts accounts <> [].
Proof.
  unfold get_crypto_ids_from_accounts. cbn zeta.
  pose proof (fold_add_account accounts ∅) as Hfold.
  set (found := fold_left _ accounts ∅) in *.
  assert (forall crypto_id,
            crypto_id ∈ elements (if decide (found = ∅)
                                   then list_to_set DEFAULT_CRYPTO_IDS else found)
            <-> match held_ids accounts with
                | [] => crypto_id ∈ DEFAULT_CRYPTO_IDS
                | _ => crypto_id ∈ held_ids accounts
                end) as Hmem.
  { intros crypto_id. rewrite elem_of_elements.
    destruct (decide (found = ∅)) as [Hempty|Hne].
    - rewrite elem_of_list_to_set.
      destruct (held_ids accounts) as [|c l] eqn:Hheld; [done|].
      assert (c ∈ found) as Hc by (apply Hfold; right; by left).
      rewrite Hempty in Hc. by apply not_elem_of_empty in Hc.
    - destruct (held_ids accounts) as [|c l] eqn:Hheld.
      + destruct Hne. apply set_eq. intros x. rewrite Hfold, elem_of_nil.
        split; [intros [H|[]]; done | intros H; by apply not_elem_of_empty in H].
      + rewrite Hfold. split; [intros [H|H]; [by apply not_elem_of_empty in H | done]
                              | by right]. }
  split; [apply NoDup_elements|]. split; [exact Hmem|].
  intros Hnil.
  destruct (held_ids accounts) as [|c l] eqn:Hheld.
  - assert ("bitcoin" ∈ @nil string) as H;
      [rewrite <- Hnil; apply Hmem; by left | by apply elem_of_nil in H].
  - assert (c ∈ @nil string) as H;
      [rewrite <- Hnil; apply Hmem; by left | by apply elem_of_nil in H].
Qed.

(** ** Requests and sleeps of [get_crypto_prices] *)

Section RequestFacts.

Variable api : nat -> response.

Lemma requests_app (evs evs' : list event) :
  requests (evs ++ evs') = requests evs + requests evs'.
Proof. unfold requests. by rewrite omap_app, length_app. Qed.

Lemma sleeps_app (evs evs' : list event) :
  sleeps (evs ++ evs') = (sleeps evs ++ sleeps evs')%list.
Proof. unfold sleeps. by rewrite omap_app. Qed.

Lemma price_step_effects data st crypto_id :
  requests (events (price_step data st crypto_id).2) = requests (events st.2)
  /\ sleeps (events (price_step data st crypto_id).2) = sleeps (events st.2).
Proof.
  destruct st as [prices w]. unfold price_step.
  destruct (data !! crypto_id) as [[price| |]|]; cbn [snd emit events];
    rewrite ?requests_app, ?sleeps_app; cbn; rewrite ?Nat.add_0_r, ?app_nil_r; done.
Qed.

Lemma for_crypto_ids_effects data crypto_ids st :
  requests (events (for_crypto_ids data crypto_ids st).2) = requests (events st.2)
  /\ sleeps (events (for_crypto_ids data crypto_ids st).2) = sleeps (events st.2).
Proof.
  revert st. induction crypto_ids as [|c crypto_ids IH]; intros st;
    cbn [for_crypto_ids]; [done|].
  pose proof (price_step_effects data st c) as Hstep.
  destruct (price_step data st c) as [[prices|] w']; cbn [snd] in Hstep; [|done].
  destruct (IH (prices, w')) as [-> ->]. done.
Qed.

(** Every attempt issues exactly one request. *)
Lemma try_attempt_requests crypto_ids retry_delay attempt w :
  requests (events (tried_world (try_attempt api crypto_ids retry_delay attempt w)))
  = S (requests (events w)).
Proof.
  unfold try_attempt. cbn zeta.
  change (sent (emit (InfoRequesting attempt) w)) with (sent w).
  assert (requests (events (count_request (join "," crypto_ids)
                              (emit (InfoRequesting attempt) w)))
          = S (requests (events w))) as Hreq.
  { cbn [count_request emit events]. rewrite !requests_app. cbn. lia. }
  destruct (api (sent w)) as [|status_code header content]; [done|].
  destruct (status_code =? 429)%nat.
  { destruct (retry_after_seconds retry_delay header) as [retry_after|]; [|done].
    destruct (retry_after <? 0)%Z; cbn [tried_world sleep emit events];
      rewrite !requests_app; cbn [count_request emit events] in *;
      rewrite ?requests_app in *; cbn in *; lia. }
  destruct ((400 <=? status_code) && (status_code <? 600))%nat; [done|].
  destruct content as [|data]; [done|].
  pose proof (for_crypto_ids_effects data crypto_ids
    (∅, count_request (join "," crypto_ids) (emit (InfoRequesting attempt) w)))
    as [Hr _].
  destruct (for_crypto_ids _ _ _) as [[prices|] w']; cbn [tried_world];
    cbn [snd] in Hr; by rewrite Hr.
Qed.

Lemma after_failure_requests max_retries retry_delay attempt w :
  requests (events (after_failure max_retries retry_delay attempt w))
  = requests (events w).
Proof.
  unfold after_failure. destruct (_ <? _)%Z; cbn [sleep emit events];
    rewrite !requests_app; cbn; lia.
Qed.

Lemma for_attempts_requests_le crypto_ids max_retries retry_delay range w :
  requests (events (for_attempts api crypto_ids max_retries retry_delay range w).2)
  <= requests (events w) + length range.
Proof.
  revert w. induction range as [|attempt range IH]; intros w; [simpl; lia|].
  rewrite for_attempts_cons.
  pose proof (try_attempt_requests crypto_ids retry_delay attempt w) as Hreq.
  destruct (try_attempt api crypto_ids retry_delay attempt w) as [prices w'|w'|w'];
    cbn [tried_world] in Hreq; cbn [snd length].
  - lia.
  - specialize (IH w'). lia.
  - specialize (IH (after_failure max_retries retry_delay attempt w')).
    rewrite after_failure_requests in IH. lia.
Qed.

Lemma for_attempts_requests_success crypto_ids max_retries retry_delay range w k data :
  k < length range ->
  (forall i, i < k -> successful crypto_ids (api (sent w + i)) = None) ->
  successful crypto_ids (api (sent w + k)) = Some data ->
  requests (events (for_attempts api crypto_ids max_retries retry_delay range w).2)
  = requests (events w) + S k.
Proof.
  revert w k. induction range as [|attempt range IH]; intros w k Hk Hfail Hok;
    [simpl in Hk; lia|].
  rewrite for_attempts_cons.
  pose proof (try_attempt_requests crypto_ids retry_delay attempt w) as Hreq.
  pose proof (try_attempt_frame api crypto_ids retry_delay attempt w) as (_ & _ & Hsent).
  cbn zeta in Hsent.
  destruct k as [|k].
  - rewrite Nat.add_0_r in Hok.
    destruct (try_attempt_successful api crypto_ids retry_delay attempt w data Hok)
      as (prices & w' & Ht & _).
    rewrite Ht in *. cbn [tried_world snd] in *. lia.
  - assert (successful crypto_ids (api (sent w)) = None) as Hfirst.
    { rewrite <- (Nat.add_0_r (sent w)). apply Hfail. lia. }
    pose proof (try_attempt_unsuccessful api crypto_ids retry_delay attempt w Hfirst)
      as Hnot.
    cbn [length] in Hk.
    destruct (try_attempt api crypto_ids retry_delay attempt w) as [prices w'|w'|w'];
      cbn [tried_world] in Hreq, Hsent; [by destruct (Hnot prices w')| |].
    + rewrite (IH w' k); [lia | lia | |].
      * intros i Hi. rewrite Hsent.
        replace (S (sent w) + i) with (sent w + S i) by lia. apply Hfail. lia.
      * rewrite Hsent. by replace (S (sent w) + k) with (sent w + S k) by lia.
    + destruct (after_failure_frame max_retries retry_delay attempt w')
        as (_ & _ & Hsent').
      rewrite (IH _ k); [rewrite after_failure_requests; lia | lia | |];
        rewrite Hsent', Hsent.
      * intros i Hi.
        replace (S (sent w) + i) with (sent w + S i) by lia. apply Hfail. lia.
      * by replace (S (sent w) + k) with (sent w + S k) by lia.
Qed.

Lemma for_attempts_requests_exhausted crypto_ids max_retries retry_delay range w :
  (forall i, i < length range -> successful crypto_ids (api (sent w + i)) = None) ->
  requests (events (for_attempts api crypto_ids max_retries retry_delay range w).2)
  = requests (events w) + length range.
Proof.
  revert w. induction range as [|attempt range IH]; intros w Hfail; [simpl; lia|].
  rewrite for_attempts_cons.
  pose proof (try_attempt_requests crypto_ids retry_delay attempt w) as Hreq.
  pose proof (try_attempt_frame api crypto_ids retry_delay attempt w) as (_ & _ & Hsent).
  cbn zeta in Hsent.
  assert (successful crypto_ids (api (sent w)) = None) as Hfirst.
  { rewrite <- (Nat.add_0_r (sent w)). apply Hfail. simpl. lia. }
  pose proof (try_attempt_unsuccessful api crypto_ids retry_delay attempt w Hfirst)
    as Hnot.
  destruct (try_attempt api crypto_ids retry_delay attempt w) as [prices w'|w'|w'];
    cbn [tried_world] in Hreq, Hsent; [by destruct (Hnot prices w')| |]; cbn [length].
  - rewrite IH; [lia|]. intros i Hi. rewrite Hsent.
    replace (S (sent w) + i) with (sent w + S i) by lia. apply Hfail. simpl. lia.
  - destruct (after_failure_frame max_retries retry_delay attempt w')
      as (_ & _ & Hsent').
    rewrite IH; [rewrite after_failure_requests; lia|].
    intros i Hi. rewrite Hsent', Hsent.
    replace (S (sent w) + i) with (sent w + S i) by lia. apply Hfail. simpl. lia.
Qed.

End RequestFacts.

(** X2: a call of [get_crypto_prices] issues at most [max_retries]
    requests; it issues none after the first successful reply, and when no
    reply is successful it issues exactly [max_retries].  A reply is
    successful when its status is neither 429 nor an error status, its body
    parses and the ['usd'] of every requested id that has one is a number:
    a reply that gives [null] as the price of a requested id is followed
    by another request like any failure. *)
Theorem get_crypto_prices_requests
    (api : nat -> response) (crypto_ids : option (list string))
    (max_retries retry_delay : nat) (w : world) :
  let requested := default DEFAULT_CRYPTO_IDS crypto_ids in
  let issued w' := requests (events w') - requests (events w) in
  let w' := (get_crypto_prices api crypto_ids max_retries retry_delay w).2 in
  issued w' <= max_retries
  /\ (forall k data,
        k < max_retries ->
        (forall i, i < k -> successful requested (api (sent w + i)) = None) ->
        successful requested (api (sent w + k)) = Some data ->
        issued w' = S k)
  /\ ((forall i, i < max_retries -> successful requested (api (sent w + i)) = None) ->
      issued w' = max_retries).
Proof.
  cbn zeta. unfold get_crypto_prices. split; [|split].
  - pose proof (for_attempts_requests_le api (default DEFAULT_CRYPTO_IDS crypto_ids)
                  max_retries retry_delay (seq 0 max_retries) w) as Hle.
    rewrite length_seq in Hle. lia.
  - intros k data Hk Hfail Hok.
    rewrite (for_attempts_requests_success api _ max_retries retry_delay _ w k data)
      by (rewrite ?length_seq; done).
    lia.
  - intros Hfail.
    rewrite for_attempts_requests_exhausted by (by rewrite length_seq).
    rewrite length_seq. lia.
Qed.

Lemma get_crypto_prices_requests_witness :
  requests (events (get_crypto_prices null_then_bitcoin (Some ["bitcoin"]) 3 5
                      (cold_start 0)).2)
  - requests (events (cold_start 0)) = 2
  /\ requests (events (get_crypto_prices null_bitcoin (Some ["bitcoin"]) 3 5
                         (cold_start 0)).2)
     - requests (events (cold_start 0)) = 3.
Proof.
  split.
  - apply (proj1 (proj2 (get_crypto_prices_requests null_then_bitcoin
                           (Some ["bitcoin"]) 3 5 (cold_start 0)))
             1 bitcoin_60000); [lia | | reflexivity].
    intros i Hi. assert (i = 0) as -> by lia. reflexivity.
  - apply (proj2 (proj2 (get_crypto_prices_requests null_bitcoin
                           (Some ["bitcoin"]) 3 5 (cold_start 0)))).
    reflexivity.
Defined.

Section BackoffFacts.

Variable api : nat -> response.

Lemma try_attempt_raises crypto_ids retry_delay attempt w :
  raises crypto_ids retry_delay (api (sent w)) = true ->
  exists w',
    try_attempt api crypto_ids retry_delay attempt w = Except w'
    /\ sleeps (events w') = sleeps (events w)
    /\ sent w' = S (sent w)
    /\ now w' = now w.
Proof.
  unfold try_attempt, raises. cbn zeta.
  change (sent (emit (InfoRequesting attempt) w)) with (sent w).
  assert (sleeps (events (count_request (join "," crypto_ids)
                            (emit (InfoRequesting attempt) w)))
          = sleeps (events w)) as Hsl.
  { cbn [count_request emit events]. rewrite !sleeps_app. cbn.
    by rewrite !app_nil_r. }
  destruct (api (sent w)) as [|status_code header content].
  { intros _. by eexists. }
  destruct (status_code =? 429)%nat.
  { destruct (retry_after_seconds retry_delay header) as [retry_after|].
    - intros ->. eexists. split; [done|]. cbn [emit events].
      rewrite sleeps_app, Hsl. cbn. by rewrite app_nil_r.
    - intros _. by eexists. }
  destruct ((400 <=? status_code) && (status_code <? 600))%nat.
  { intros _. by eexists. }
  destruct content as [|data]; [intros _; by eexists|]. intros Hsome.
  pose proof (for_crypto_ids_unreadable data crypto_ids
    (∅, count_request (join "," crypto_ids) (emit (InfoRequesting attempt) w)) Hsome)
    as Hres.
  pose proof (for_crypto_ids_effects data crypto_ids
    (∅, count_request (join "," crypto_ids) (emit (InfoRequesting attempt) w)))
    as [_ Hsleeps].
  pose proof (for_crypto_ids_frame data crypto_ids
    (∅, count_request (join "," crypto_ids) (emit (InfoRequesting attempt) w)))
    as (_ & _ & Hsent & Hnow).
  destruct (for_crypto_ids _ _ _) as [found w']. cbn [fst snd] in *. subst found.
  exists w'. by rewrite Hsleeps, Hsent, Hnow.
Qed.

(** When every attempt ends in an [except] clause, the sleeps are the
    backoff times of all attempts but the last. *)
Lemma for_attempts_backoff crypto_ids max_retries retry_delay n attempt w :
  attempt + n = max_retries ->
  (forall i, i < n -> raises crypto_ids retry_delay (api (sent w + i)) = true) ->
  let r := for_attempts api crypto_ids max_retries retry_delay (seq attempt n) w in
  r.1 = ∅
  /\ sleeps (events r.2)
     = (sleeps (events w) ++ map (backoff_time retry_delay) (seq attempt (n - 1)))%list.
Proof.
  revert attempt w. induction n as [|n IH]; intros attempt w Hmax Hraise; cbn zeta.
  { cbn. by rewrite app_nil_r. }
  cbn [seq]. rewrite for_attempts_cons.
  destruct (try_attempt_raises crypto_ids retry_delay attempt w) as (w' & -> & Hsl & Hsent & _).
  { rewrite <- (Nat.add_0_r (sent w)). apply Hraise. lia. }
  assert (forall i, i < n ->
            raises crypto_ids retry_delay
              (api (sent (after_failure max_retries retry_delay attempt w') + i)) = true)
    as Hrest.
  { intros i Hi.
    destruct (after_failure_frame max_retries retry_delay attempt w') as (_ & _ & ->).
    rewrite Hsent. replace (S (sent w) + i) with (sent w + S i) by lia.
    apply Hraise. lia. }
  destruct (IH (S attempt) (after_failure max_retries retry_delay attempt w')
              ltac:(lia) Hrest) as [Hres Hsleeps].
  split; [done|]. rewrite Hsleeps. unfold after_failure.
  destruct n as [|n].
  - assert ((Z.of_nat attempt <? Z.of_nat max_retries - 1)%Z = false) as ->
      by (apply Z.ltb_ge; lia).
    cbn [emit events seq map Nat.sub]. rewrite !sleeps_app, Hsl. cbn.
    by rewrite !app_nil_r.
  - assert ((Z.of_nat attempt <? Z.of_nat max_retries - 1)%Z = true) as ->
      by (apply Z.ltb_lt; lia).
    cbn [sleep emit events]. rewrite !sleeps_app, Hsl.
    replace (S (S n) - 1) with (S n) by lia. replace (S n - 1) with n by lia.
    cbn [seq map]. cbn [sleeps omap]. rewrite !app_nil_r, <- app_assoc. done.
Qed.

End BackoffFacts.

(** X3: when every attempt of [get_crypto_prices] ends in an error (no
    reply, an error status, an unreadable body, a body in which the ['usd']
    of a requested id is not a number, or a 429 whose [Retry-After] cannot
    be used), the function returns the empty mapping and has slept
    [retry_delay * 2^attempt] seconds after each attempt except the last:
    5 and 10 seconds with the default arguments. *)
Theorem get_crypto_prices_backoff
    (api : nat -> response) (crypto_ids : option (list string))
    (max_retries retry_delay : nat) (w : world) :
  (forall i, i < max_retries ->
     raises (default DEFAULT_CRYPTO_IDS crypto_ids) retry_delay (api (sent w + i))
     = true) ->
  let r := get_crypto_prices api crypto_ids max_retries retry_delay w in
  r.1 = ∅
  /\ sleeps (events r.2)
     = (sleeps (events w)
          ++ map (backoff_time retry_delay) (seq 0 (max_retries - 1)))%list.
Proof.
  intros Hraise. unfold get_crypto_prices.
  by apply for_attempts_backoff.
Qed.

Lemma get_crypto_prices_backoff_witness :
  sleeps (events (get_crypto_prices unreachable None 3 5 (cold_start 0)).2)
  = [5; 10]%Z.
Proof.
  apply (proj2 (get_crypto_prices_backoff unreachable None 3 5 (cold_start 0)
                  (fun i _ => eq_refl))).
Defined.

(** ** Hits and writes of [get_cached_crypto_prices] *)

Lemma log_cached_effects crypto_ids items w :
  requests (events (log_cached crypto_ids items w).1) = requests (events w)
  /\ sleeps (events (log_cached crypto_ids items w).1) = sleeps (events w).
Proof.
  revert w. induction items as [|[crypto_id price] items IH]; intros w;
    cbn [log_cached]; [done|].
  case_bool_decide; [|apply IH].
  destruct price as [p|]; [|done].
  destruct (IH (emit (InfoCachedPrice crypto_id p) w)) as (-> & ->).
  cbn [emit events]. rewrite requests_app, sleeps_app. cbn.
  by rewrite Nat.add_0_r, app_nil_r.
Qed.

(** Consulting the cache neither issues a request nor sleeps. *)
Lemma read_cache_effects crypto_ids cache_duration w :
  requests (events (read_cache crypto_ids cache_duration w).2) = requests (events w)
  /\ sleeps (events (read_cache crypto_ids cache_duration w).2) = sleeps (events w).
Proof.
  assert (forall e w0, (forall p, e <> HttpGet p) -> (forall d, e <> Sleep d) ->
            requests (events (emit e w0)) = requests (events w0)
            /\ sleeps (events (emit e w0)) = sleeps (events w0)) as Hemit.
  { intros e w0 Hg Hs. cbn [emit events]. rewrite requests_app, sleeps_app.
    destruct e; cbn; rewrite ?Nat.add_0_r, ?app_nil_r; try done.
    - by destruct (Hg ids_param).
    - by destruct (Hs seconds). }
  unfold read_cache.
  destruct (cache w) as [[|timestamp prices]|] eqn:Hcache; [by apply Hemit| |done].
  destruct (Qltb _ _); [|by apply Hemit].
  destruct (filter _ crypto_ids); [|by apply Hemit].
  pose proof (log_cached_effects crypto_ids (map_to_list (default ∅ prices))
                (emit InfoCacheHit w)) as (Hr & Hs).
  destruct (Hemit InfoCacheHit w) as (Hr0 & Hs0); [done..|].
  destruct (log_cached _ _ _) as [w' []]; cbn [fst snd] in *.
  - by rewrite Hr, Hs.
  - destruct (Hemit WarnCacheRead w') as (-> & ->); [done..|]. by rewrite Hr, Hs.
Qed.

Lemma read_cache_hit_value crypto_ids cache_duration w timestamp prices :
  cache w = Some (CacheJson timestamp prices) ->
  (now w - default 0%Q timestamp < inject_Z cache_duration)%Q ->
  (forall crypto_id, crypto_id ∈ crypto_ids ->
     exists price, default ∅ prices !! crypto_id = Some (Some price)) ->
  (read_cache crypto_ids cache_duration w).1 = Some (default ∅ prices).
Proof.
  intros Hcache Hfresh Hall.
  destruct (proj2 (read_cache_hit_iff crypto_ids cache_duration w timestamp prices
                     Hcache) (conj Hfresh Hall)) as [found Hfound].
  rewrite Hfound. f_equal.
  destruct (read_cache_returns crypto_ids cache_duration w found Hfound)
    as [timestamp' [H | [H ->]]]; rewrite Hcache in H; by injection H as _ ->.
Qed.

(** X4: when the cache file holds a record younger than [cache_duration]
    with a price other than [None] for every requested id,
    [get_cached_crypto_prices] returns the whole mapping of the record, ids
    that were not requested included, issues no request and leaves the file
    and the clock as they are. *)
Theorem cache_hit_returns_record
    (api : nat -> response) (accounts : list account)
    (crypto_ids : option (list string)) (cache_duration : Z) (w : world)
    (timestamp : option Q) (prices : option (gmap string (option Q))) :
  cache w = Some (CacheJson timestamp prices) ->
  (now w - default 0%Q timestamp < inject_Z cache_duration)%Q ->
  (forall crypto_id, crypto_id ∈ requested_ids accounts crypto_ids ->
     exists price, default ∅ prices !! crypto_id = Some (Some price)) ->
  let r := get_cached_crypto_prices api accounts crypto_ids cache_duration w in
  r.1 = default ∅ prices
  /\ cache r.2 = cache w
  /\ requests (events r.2) = requests (events w)
  /\ sleeps (events r.2) = sleeps (events w)
  /\ now r.2 = now w.
Proof.
  intros Hcache Hfresh Hall. cbn zeta.
  unfold get_cached_crypto_prices. fold (requested_ids accounts crypto_ids).
  pose proof (read_cache_hit_value _ cache_duration w timestamp prices
                Hcache Hfresh Hall) as Hhit.
  pose proof (read_cache_frame (requested_ids accounts crypto_ids) cache_duration w)
    as (Hc & _ & _ & Hn).
  pose proof (read_cache_effects (requested_ids accounts crypto_ids) cache_duration w)
    as (Hr & Hs).
  destruct (read_cache _ _ w) as [found w1]. cbn [fst snd] in *.
  rewrite Hhit. done.
Qed.

Lemma cache_hit_returns_record_witness :
  let r := get_cached_crypto_prices unreachable [] (Some ["bitcoin"]) 300
             (sleep 100 (write_cache
                (CacheJson (Some 0%Q)
                   (Some {[ "bitcoin" := Some 50000%Q; "ethereum" := Some 3000%Q ]}))
                (cold_start 0))) in
  r.1 = {[ "bitcoin" := Some 50000%Q; "ethereum" := Some 3000%Q ]}
  /\ requests (events r.2) = 0.
Proof.
  pose proof (cache_hit_returns_record unreachable [] (Some ["bitcoin"]) 300
                (sleep 100 (write_cache
                   (CacheJson (Some 0%Q)
                      (Some {[ "bitcoin" := Some 50000%Q;
                               "ethereum" := Some 3000%Q ]}))
                   (cold_start 0)))
                (Some 0%Q)
                (Some {[ "bitcoin" := Some 50000%Q; "ethereum" := Some 3000%Q ]})
                eq_refl eq_refl) as H.
  destruct H as (Hres & _ & Hreq & _).
  - intros crypto_id Hin. apply list_elem_of_singleton in Hin as ->.
    exists 50000%Q. reflexivity.
  - split; [exact Hres | exact Hreq].
Defined.

Lemma get_crypto_prices_first_reply api crypto_ids max_retries retry_delay w data :
  0 < max_retries ->
  successful crypto_ids (api (sent w)) = Some data ->
  forall crypto_id,
    (get_crypto_prices api (Some crypto_ids) max_retries retry_delay w).1 !! crypto_id
    = if decide (crypto_id ∈ crypto_ids) then Some (mjoin (data !! crypto_id))
      else None.
Proof.
  intros Hmax Hok. unfold get_crypto_prices. cbn [default].
  apply (for_attempts_first_success api crypto_ids max_retries retry_delay _ w 0 data).
  - by rewrite length_seq.
  - intros i Hi. lia.
  - by rewrite Nat.add_0_r.
Qed.

(** X5: what [get_cached_crypto_prices] has fetched and written, a later
    call for the same ids reads back.  If a call misses the cache, gets a
    reply that prices every requested id and can write the file, then any
    call made while the record is younger than [cache_duration] returns the
    same mapping without issuing a request. *)
Theorem cache_round_trip
    (api api' : nat -> response) (accounts : list account)
    (crypto_ids : option (list string)) (cache_duration : Z)
    (w w1 w' : world) (data : gmap string (option Q)) :
  let ids := requested_ids accounts crypto_ids in
  let first := get_cached_crypto_prices api accounts crypto_ids cache_duration w in
  let second := get_cached_crypto_prices api' accounts crypto_ids cache_duration w' in
  read_cache ids cache_duration w = (None, w1) ->
  writable w = true ->
  successful ids (api (sent w)) = Some data ->
  ids <> [] ->
  (forall crypto_id, crypto_id ∈ ids ->
     exists price, data !! crypto_id = Some (Some price)) ->
  cache w' = cache first.2 ->
  (now w' - now first.2 < inject_Z cache_duration)%Q ->
  second.1 = first.1
  /\ requests (events second.2) = requests (events w')
  /\ cache second.2 = cache w'.
Proof.
  cbn zeta. intros Hmiss Hwritable Hok Hne Hpriced.
  set (ids := requested_ids accounts crypto_ids) in *.
  assert (exists prices wf,
            get_cached_crypto_prices api accounts crypto_ids cache_duration w
            = (prices,
               emit InfoCacheUpdated
                 (write_cache (CacheJson (Some (now wf)) (Some prices)) wf))
            /\ forall crypto_id, crypto_id ∈ ids ->
                 exists price, prices !! crypto_id = Some (Some price))
    as (prices & wf & Hfirst & Hall).
  { unfold get_cached_crypto_prices. fold (requested_ids accounts crypto_ids).
    fold ids. rewrite Hmiss.
    pose proof (read_cache_frame ids cache_duration w) as (_ & Hw1 & Hs1 & _).
    rewrite Hmiss in Hw1, Hs1. cbn [snd] in Hw1, Hs1.
    pose proof (get_crypto_prices_first_reply api ids 3 5 (emit InfoFresh w1) data
                  ltac:(lia)) as Hlookup.
    change (sent (emit InfoFresh w1)) with (sent w1) in Hlookup.
    rewrite Hs1 in Hlookup. specialize (Hlookup Hok).
    pose proof (get_crypto_prices_frame api (Some ids) 3 5 (emit InfoFresh w1))
      as (_ & Hwf).
    change (writable (emit InfoFresh w1)) with (writable w1) in Hwf.
    destruct (get_crypto_prices _ _ _ _ _) as [prices wf]. cbn [fst snd] in *.
    assert (forall crypto_id, crypto_id ∈ ids ->
              exists price, prices !! crypto_id = Some (Some price)) as Hall.
    { intros crypto_id Hin. destruct (Hpriced crypto_id Hin) as [price Hp].
      exists price. by rewrite Hlookup, decide_True, Hp. }
    destruct (is_empty_dict prices) eqn:Hempty.
    { apply is_empty_dict_true in Hempty. subst prices.
      destruct ids as [|c ids']; [done|].
      destruct (Hall c) as [price Hp]; [by left|]. by rewrite lookup_empty in Hp. }
    rewrite Hwf, Hw1, Hwritable. by exists prices, wf. }
  rewrite Hfirst. cbn [fst snd emit write_cache cache now].
  intros Hcache Hfresh.
  unfold get_cached_crypto_prices. fold (requested_ids accounts crypto_ids). fold ids.
  pose proof (read_cache_hit_value ids cache_duration w' (Some (now wf)) (Some prices)
                Hcache Hfresh Hall) as Hhit.
  pose proof (read_cache_frame ids cache_duration w') as (Hc & _).
  pose proof (read_cache_effects ids cache_duration w') as (Hr & _).
  destruct (read_cache ids cache_duration w') as [found w2]. cbn [fst snd] in *.
  rewrite Hhit. done.
Qed.

Lemma cache_round_trip_witness :
  let first := get_cached_crypto_prices bitcoin_only [] (Some ["bitcoin"]) 300
                 (cold_start 1000) in
  let later := sleep 299 first.2 in
  let second := get_cached_crypto_prices unreachable [] (Some ["bitcoin"]) 300 later in
  second.1 = first.1 /\ requests (events second.2) = requests (events later).
Proof.
  cbn zeta.
  pose proof (cache_round_trip bitcoin_only unreachable [] (Some ["bitcoin"]) 300
                (cold_start 1000) (cold_start 1000)
                (sleep 299 (get_cached_crypto_prices bitcoin_only []
                              (Some ["bitcoin"]) 300 (cold_start 1000)).2)
                bitcoin_60000 eq_refl eq_refl eq_refl) as H.
  destruct H as (Hres & Hreq & _).
  - discriminate.
  - intros crypto_id Hin. apply list_elem_of_singleton in Hin as ->.
    exists 60000%Q. reflexivity.
  - reflexivity.
  - vm_compute. reflexivity.
  - split; [exact Hres | exact Hreq].
Defined.

(** X6: a cache file that cannot be written is not fatal.  The file stays
    as it is, and after a miss [get_cached_crypto_prices] still returns what
    the fetch gave. *)
Theorem unwritable_cache_is_not_fatal
    (api : nat -> response) (accounts : list account)
    (crypto_ids : option (list string)) (cache_duration : Z) (w : world) :
  writable w = false ->
  let ids := requested_ids accounts crypto_ids in
  let r := get_cached_crypto_prices api accounts crypto_ids cache_duration w in
  cache r.2 = cache w
  /\ forall w1,
       read_cache ids cache_duration w = (None, w1) ->
       r.1 = (get_crypto_prices api (Some ids) 3 5 (emit InfoFresh w1)).1.
Proof.
  intros Hwritable. cbn zeta.
  unfold get_cached_crypto_prices. fold (requested_ids accounts crypto_ids).
  pose proof (read_cache_frame (requested_ids accounts crypto_ids) cache_duration w)
    as (Hc1 & Hw1 & _).
  destruct (read_cache _ _ w) as [[found|] w1]; cbn [fst snd] in *.
  { split; [done|]. by intros w1' [=]. }
  pose proof (get_crypto_prices_frame api (Some (requested_ids accounts crypto_ids))
                3 5 (emit InfoFresh w1)) as (Hc2 & Hw2).
  change (cache (emit InfoFresh w1)) with (cache w1) in Hc2.
  change (writable (emit InfoFresh w1)) with (writable w1) in Hw2.
  destruct (get_crypto_prices _ _ _ _ _) as [prices w2] eqn:Hfetch.
  cbn [fst snd] in *.
  assert (cache (if is_empty_dict prices then (prices, w2)
                 else if writable w2
                      then (prices,
                            emit InfoCacheUpdated
                              (write_cache (CacheJson (Some (now w2)) (Some prices)) w2))
                      else (prices, emit WarnCacheWrite w2)).2 = cache w
          /\ (if is_empty_dict prices then (prices, w2)
              else if writable w2
                   then (prices,
                         emit InfoCacheUpdated
                           (write_cache (CacheJson (Some (now w2)) (Some prices)) w2))
                   else (prices, emit WarnCacheWrite w2)).1 = prices) as [Hcache Hres].
  { rewrite Hw2, Hw1, Hwritable. destruct (is_empty_dict prices); cbn; split; congruence. }
  split; [done|]. intros w1' [= <-]. by rewrite Hfetch.
Qed.

Lemma unwritable_cache_is_not_fatal_witness :
  let w :=
    {| now := 0; cache := None; writable := false; sent := 0; events := [] |} in
  let r := get_cached_crypto_prices bitcoin_only [] (Some ["bitcoin"]) 300 w in
  cache r.2 = None /\ r.1 = bitcoin_60000.
Proof.
  cbn zeta.
  pose proof (unwritable_cache_is_not_fatal bitcoin_only [] (Some ["bitcoin"]) 300
                {| now := 0; cache := None; writable := false; sent := 0;
                   events := [] |} eq_refl) as [Hcache Hres].
  split; [exact Hcache|]. rewrite (Hres _ eq_refl). vm_compute. reflexivity.
Defined.

(** ** The totals of [calculate_account_balances] *)

Section TallyFacts.

Variable crypto_prices : gmap string (option Q).
Variable stock_prices : gmap string Q.






End TallyFacts.


(** Two coins worth 0.004 dollars each: either line shows 0.00, the
    total is 0.008 and is shown as 0.01. *)
Example lines_are_rounded_one_by_one :
  let t := account_tally small_prices ∅ [] two_small_coins in
  assets_summary t = [CryptoLine "bitcoin" 1 "0.00"; CryptoLine "ethereum" 1 "0.00"]
  /\ total_usd t = (0 + 1 * (4 # 1000) + 1 * (4 # 1000))%Q
  /\ format_2f (total_usd t) = "0.01"
  /\ format_comma_2f (total_usd t) = "0.01".
Proof. cbn zeta. repeat split; vm_compute; reflexivity. Qed.

(** ** What [handle_mfa_code] submits *)


(** ** The command loop of [update_projectionlab] *)

(** X9: the loop hands the commands to the browser in order and stops at
    the first one that fails.  It reports success exactly when every
    command was redacted and run; otherwise the commands after the failing
    one are never run, and the failing one is run only if its redaction
    succeeded. *)
Theorem command_loop_stops_at_first_failure
    (script_ok : string -> bool) (update_commands : list string)
    (log : list exec_log) (executed : list string) :
  let r := update_projectionlab_loop script_ok update_commands log executed in
  (r.1.1 = true
   /\ r.2 = (executed ++ update_commands)%list
   /\ Forall (runnable script_ok) update_commands)
  \/ (r.1.1 = false
      /\ exists ran bad rest,
           update_commands = (ran ++ bad :: rest)%list
           /\ Forall (runnable script_ok) ran
           /\ ~ runnable script_ok bad
           /\ r.2 = (executed ++ ran
                       ++ match redacted_command bad with
                          | Some _ => [bad]
                          | None => []
                          end)%list).
Proof.
  cbn zeta. revert log executed.
  induction update_commands as [|command rest IH]; intros log executed;
    cbn [update_projectionlab_loop].
  { left. cbn. by rewrite app_nil_r. }
  destruct (redacted_command command) as [redacted|] eqn:Hred.
  2:{ right. split; [done|]. exists [], command, rest. cbn [app snd].
      rewrite Hred, app_nil_r. repeat split; try done.
      intros [[x Hx] _]. congruence. }
  destruct (script_ok command) eqn:Hok.
  2:{ right. split; [done|]. exists [], command, rest. cbn [app snd].
      rewrite Hred. repeat split; try done.
      intros [_ Hrun]. congruence. }
  assert (runnable script_ok command) as Hrun by (split; [by eexists | done]).
  destruct (IH ((log ++ [InfoExecuting redacted]) ++ [InfoExecuted])%list
              (executed ++ [command])%list)
    as [(Hres & Hexec & Hall) | (Hres & ran & bad & rest' & Hsplit & Hran & Hbad & Hexec)];
    rewrite <- (app_assoc executed) in Hexec; cbn [app] in Hexec.
  - left. split; [done|]. split; [done|]. by constructor.
  - right. split; [done|].
    exists (command :: ran), bad, rest'.
    split; [by rewrite Hsplit|]. split; [by constructor|]. split; [done|].
    by rewrite Hexec.
Qed.

(** ** The redaction of the command loop *)

Lemma str_app_cons (c : Ascii.ascii) (s t : string) :
  String c s ++ t = String c (s ++ t).
Proof. reflexivity. Qed.

Lemma str_app_nil_r (s : string) : s ++ "" = s.
Proof. induction s as [|c s IH]; [done|]. by rewrite str_app_cons, IH. Qed.

Lemma str_app_assoc (a b c : string) : (a ++ b) ++ c = a ++ (b ++ c).
Proof. induction a as [|x a IH]; [done|]. by rewrite !str_app_cons, IH. Qed.

Lemma str_length_app (a b : string) :
  String.length (a ++ b) = String.length a + String.length b.
Proof.
  induction a as [|x a IH]; [done|].
  rewrite str_app_cons. cbn [String.length]. by rewrite IH.
Qed.

Lemma prefix_nil (s : string) : String.prefix "" s = true.
Proof. by destruct s. Qed.

Lemma prefix_app (a b : string) : String.prefix a (a ++ b) = true.
Proof.
  induction a as [|x a IH]; [apply prefix_nil|]. rewrite str_app_cons.
  cbn [String.prefix]. by destruct (Ascii.ascii_dec x x).
Qed.

(** A prefix no longer than [x] is a prefix of [x] already. *)
Lemma prefix_short (a x y : string) :
  String.prefix a (x ++ y) = true ->
  String.length a <= String.length x ->
  String.prefix a x = true.
Proof.
  revert x. induction a as [|c a IH]; intros x Hp Hlen; [apply prefix_nil|].
  destruct x as [|d x]; [cbn [String.length] in Hlen; lia|].
  rewrite str_app_cons in Hp. cbn [String.prefix] in Hp |- *.
  destruct (Ascii.ascii_dec c d); [|done].
  apply IH; [done|]. cbn [String.length] in Hlen. lia.
Qed.

Lemma split_scan_nonempty (sep : string) (skip : nat) (cur s : string) :
  exists piece pieces, split_scan sep skip cur s = piece :: pieces.
Proof.
  revert skip cur. induction s as [|c s IH]; intros skip cur; cbn [split_scan].
  - by eexists _, _.
  - destruct skip as [|k]; [|apply IH].
    destruct (String.prefix sep (String c s)); [by eexists _, _ | apply IH].
Qed.

Lemma split_scan_skip (sep x cur rest : string) :
  split_scan sep (String.length x) cur (x ++ rest) = split_scan sep 0 cur rest.
Proof.
  induction x as [|c x IH]; [done|].
  rewrite str_app_cons. cbn [String.length split_scan]. apply IH.
Qed.

(** At an occurrence of the separator the current piece ends. *)
Lemma split_scan_sep (sep cur rest : string) :
  sep <> "" ->
  split_scan sep 0 cur (sep ++ rest) = cur :: split_scan sep 0 "" rest.
Proof.
  intros Hne. destruct sep as [|a sep']; [done|].
  change (String a sep' ++ rest) with (String a (sep' ++ rest)).
  cbn [split_scan].
  change (String a (sep' ++ rest)) with (String a sep' ++ rest).
  rewrite prefix_app.
  replace (String.length (String a sep') - 1) with (String.length sep')
    by (cbn [String.length]; lia).
  by rewrite split_scan_skip.
Qed.

(** Without an occurrence of the separator there is one piece. *)
Lemma split_scan_no_sep (sep cur s : string) :
  contains sep s = false -> split_scan sep 0 cur s = [cur ++ s].
Proof.
  revert cur. induction s as [|c s IH]; intros cur Hc.
  - by rewrite str_app_nil_r.
  - cbn [contains] in Hc. apply orb_false_iff in Hc as [Hp Hc].
    cbn [split_scan]. rewrite Hp, IH by done.
    by rewrite str_app_assoc.
Qed.

(** With an occurrence there are at least two pieces. *)
Lemma split_scan_two (sep cur s : string) :
  contains sep s = true ->
  sep <> "" ->
  exists first second pieces, split_scan sep 0 cur s = first :: second :: pieces.
Proof.
  intros Hc Hne. revert cur Hc. induction s as [|c s IH]; intros cur Hc.
  - cbn in Hc. destruct sep; [done | discriminate].
  - cbn [contains] in Hc. cbn [split_scan].
    destruct (String.prefix sep (String c s)) eqn:Hp.
    + destruct (split_scan_nonempty sep (String.length sep - 1) "" s)
        as (second & pieces & ->).
      by eexists _, _, _.
    + cbn [orb] in Hc. by apply IH.
Qed.

(** The first occurrence of a separator [body ++ last]: up to it, the
    text is one piece. *)
Lemma split_scan_first (body : string) (last : Ascii.ascii) (before cur rest : string) :
  let sep := body ++ String last "" in
  contains sep (before ++ body) = false ->
  split_scan sep 0 cur (before ++ sep ++ rest)
  = (cur ++ before) :: split_scan sep 0 "" rest.
Proof.
  cbn zeta. set (sep := body ++ String last "").
  assert (sep <> "") as Hne by (subst sep; by destruct body).
  revert cur. induction before as [|c before IH]; intros cur Hc.
  - change ("" ++ sep ++ rest) with (sep ++ rest).
    by rewrite split_scan_sep, str_app_nil_r.
  - change (String c before ++ body) with (String c (before ++ body)) in Hc.
    cbn [contains] in Hc. apply orb_false_iff in Hc as [Hp Hc].
    change (String c before ++ sep ++ rest) with (String c (before ++ sep ++ rest)).
    cbn [split_scan].
    assert (String.prefix sep (String c (before ++ sep ++ rest)) = false) as ->.
    { destruct (String.prefix sep (String c (before ++ sep ++ rest))) eqn:Hp'; [|done].
      rewrite <- Hp. symmetry.
      apply (prefix_short sep (String c (before ++ body)) (String last rest)).
      - rewrite <- Hp'. f_equal. rewrite str_app_cons. f_equal. subst sep.
        by rewrite !str_app_assoc.
      - subst sep. cbn [String.length]. rewrite !str_length_app.
        cbn [String.length]. lia. }
    rewrite IH by done. by rewrite str_app_assoc.
Qed.

Lemma redacted_command_of_pieces (command first second : string) (pieces : list string) :
  split_scan "key: '" 0 "" command = first :: second :: pieces ->
  exists secret quoted,
    split_scan "'" 0 "" second = secret :: quoted
    /\ redacted_command command = Some (replace secret REDACTED command).
Proof.
  intros Hsplit.
  destruct (split_scan_nonempty "'" 0 "" second) as (secret & quoted & Hq).
  exists secret, quoted. split; [done|].
  unfold redacted_command, split. rewrite Hsplit. cbn. by rewrite Hq.
Qed.

(** X10: the redaction fails, with the [IndexError] of [[1]], exactly on
    the commands that do not contain the text [key: ']; the loop then
    reports failure without handing that command, or any after it, to the
    browser. *)
Theorem command_without_key_aborts (command : string) :
  (redacted_command command = None <-> contains "key: '" command = false)
  /\ (contains "key: '" command = false ->
      forall script_ok rest log executed,
        update_projectionlab_loop script_ok (command :: rest) log executed
        = (false, (log ++ [ErrorUpdating])%list, executed)).
Proof.
  assert (contains "key: '" command = false -> redacted_command command = None)
    as Hnone.
  { intros Hc. unfold redacted_command, split.
    by rewrite (split_scan_no_sep _ _ _ Hc). }
  split; [split; [|done]|].
  - intros Hred. destruct (contains "key: '" command) eqn:Hc; [|done].
    destruct (split_scan_two "key: '" "" command Hc ltac:(done))
      as (first & second & pieces & Hsplit).
    destruct (redacted_command_of_pieces command first second pieces Hsplit)
      as (secret & quoted & _ & Hsome).
    congruence.
  - intros Hc script_ok rest log executed. cbn [update_projectionlab_loop].
    by rewrite (Hnone Hc).
Qed.

Lemma command_without_key_aborts_witness :
  update_projectionlab_loop script_succeeds
    ["window.location.reload()";
     "window.projectionlabPluginAPI.updateAccount('a1', { balance: 1.00 }, { key: 'K' })"]
    [] []
  = (false, [ErrorUpdating], []).
Proof.
  apply (proj2 (command_without_key_aborts "window.location.reload()")).
  reflexivity.
Defined.

(** X11: for the command built for an account, the redaction replaces the
    write key by the marker, provided that the text before the key holds no
    earlier [key: '], that the key holds no quote and that no [key: '] starts
    in the key. *)
Theorem redaction_replaces_the_key (pl_api_key id : string) (balance : Q) :
  contains "key: '"
    ("window.projectionlabPluginAPI.updateAccount('" ++ id ++ "', { balance: "
       ++ format_2f balance ++ " }, { key: ") = false ->
  contains "'" pl_api_key = false ->
  contains "key: '" (pl_api_key ++ "' })") = false ->
  redacted_command (update_command pl_api_key id balance)
  = Some (replace pl_api_key REDACTED (update_command pl_api_key id balance)).
Proof.
  intros Hbefore Hquote Hafter.
  set (before := "window.projectionlabPluginAPI.updateAccount('" ++ id
                   ++ "', { balance: " ++ format_2f balance ++ " }, { ").
  assert (update_command pl_api_key id balance
          = before ++ ("key: " ++ String quote_char "") ++ (pl_api_key ++ "' })")) as Hshape.
  { unfold update_command. subst before. by rewrite !str_app_assoc. }
  assert (contains ("key: " ++ String quote_char "") (before ++ "key: ") = false) as Hbefore'.
  { subst before. rewrite !str_app_assoc. exact Hbefore. }
  assert (split_scan "key: '" 0 "" (update_command pl_api_key id balance)
          = before :: [pl_api_key ++ "' })"]) as Hsplit.
  { rewrite Hshape.
    etransitivity;
      [exact (split_scan_first "key: " quote_char before ""
                (pl_api_key ++ "' })") Hbefore')|].
    change (("" ++ before) :: split_scan "key: '" 0 "" (pl_api_key ++ "' })")
            = before :: [pl_api_key ++ "' })"]).
    by rewrite (split_scan_no_sep _ _ _ Hafter). }
  destruct (redacted_command_of_pieces _ _ _ _ Hsplit)
    as (secret & quoted & Hq & ->).
  assert (split_scan "'" 0 "" (pl_api_key ++ "' })")
          = pl_api_key :: split_scan "'" 0 "" " })") as Hkey.
  { apply (split_scan_first "" quote_char pl_api_key "" " })").
    by rewrite str_app_nil_r. }
  rewrite Hkey in Hq. by injection Hq as <- _.
Qed.

Lemma redaction_replaces_the_key_witness :
  redacted_command (update_command "SECRET" "a1" 1500)
  = Some "window.projectionlabPluginAPI.updateAccount('a1', { balance: 1500.00 }, { key: '***REDACTED***' })".
Proof.
  rewrite (redaction_replaces_the_key "SECRET" "a1" 1500);
    [| vm_compute; reflexivity ..].
  vm_compute. reflexivity.
Defined.

(** ** The run lock *)

Lemma obtain_lock_frame (pid : N) (current_time : Q) (h : host) :
  removable (obtain_lock pid current_time h).2 = removable h
  /\ creatable (obtain_lock pid current_time h).2 = creatable h.
Proof.
  unfold obtain_lock, create_lock, note, set_lock.
  cbn [removable creatable lock lock_events].
  destruct (lock h) as [l|]; [destruct (Qltb _ _)|];
    try destruct (removable h) eqn:Hr; try destruct (creatable h) eqn:Hc;
    cbn [fst snd removable creatable lock]; rewrite ?Hr, ?Hc; done.
Qed.

Lemma obtain_lock_true_iff (pid : N) (current_time : Q) (h : host) :
  (obtain_lock pid current_time h).1 = true
  <-> creatable h = true
      /\ (lock h = None
          \/ exists l, lock h = Some l /\ (3600 < current_time - mtime l)%Q
                       /\ removable h = true).
Proof.
  unfold obtain_lock, create_lock.
  destruct (lock h) as [l|] eqn:Hlock.
  - destruct (Qltb 3600 (current_time - mtime l)) eqn:Hstale.
    + apply Qltb_true in Hstale. cbn [note set_lock removable creatable].
      destruct (removable h) eqn:Hrem; [destruct (creatable h) eqn:Hcre|];
        cbn [fst].
      * split; [intros _|done]. split; [done|]. right. by exists l.
      * split; [done|]. by intros [? _].
      * split; [done|]. intros [_ [?|(l' & _ & _ & ?)]]; done.
    + apply Qltb_false in Hstale. cbn [fst].
      split; [done|]. intros [_ [?|(l' & [= <-] & Hs & _)]]; [done|].
      by apply Qlt_not_le in Hs.
  - destruct (creatable h) eqn:Hcre; cbn [fst].
    + split; [intros _|done]. split; [done|by left].
    + split; [done|]. by intros [? _].
Qed.

Lemma obtain_lock_writes (pid : N) (current_time : Q) (h : host) :
  (obtain_lock pid current_time h).1 = true ->
  lock (obtain_lock pid current_time h).2
  = Some {| mtime := current_time; owner := pretty pid |}.
Proof.
  unfold obtain_lock, create_lock, note, set_lock.
  cbn [removable creatable lock lock_events].
  destruct (lock h) as [l|]; [destruct (Qltb _ _)|];
    try destruct (removable h) eqn:Hr; try destruct (creatable h) eqn:Hc;
    cbn [fst snd removable creatable lock]; rewrite ?Hr, ?Hc; done.
Qed.

Lemma obtain_lock_fresh (pid : N) (current_time : Q) (h : host) (l : lock_file) :
  lock h = Some l ->
  ~ (3600 < current_time - mtime l)%Q ->
  (obtain_lock pid current_time h).1 = false
  /\ lock (obtain_lock pid current_time h).2 = lock h.
Proof.
  intros Hlock Hfresh. unfold obtain_lock. rewrite Hlock.
  destruct (Qltb 3600 (current_time - mtime l)) eqn:Hstale.
  - apply Qltb_true in Hstale. by destruct Hfresh.
  - by rewrite <- Hlock.
Qed.

(** X12: [obtain_lock] succeeds exactly when the lock can be created and
    there is no lock file or the one there is stale (older than 3600 s, not
    3600 s or younger) and can be removed.  On success the file holds the
    caller's pid and the current time; a lock that is not stale makes it
    return [False] and the file stays as it was. *)
Theorem obtain_lock_outcome (pid : N) (current_time : Q) (h : host) :
  let r := obtain_lock pid current_time h in
  let stale l := (3600 < current_time - mtime l)%Q in
  (r.1 = true
   <-> creatable h = true
       /\ (lock h = None
           \/ exists l, lock h = Some l /\ stale l /\ removable h = true))
  /\ (r.1 = true ->
      lock r.2 = Some {| mtime := current_time; owner := pretty pid |})
  /\ (forall l, lock h = Some l -> ~ stale l -> r.1 = false /\ lock r.2 = lock h).
Proof.
  cbn zeta. split; [apply obtain_lock_true_iff|].
  split; [apply obtain_lock_writes|].
  intros l Hlock Hfresh. by apply (obtain_lock_fresh pid current_time h l).
Qed.

Lemma obtain_lock_outcome_witness :
  let h := {| lock := Some {| mtime := 0; owner := "17" |};
              removable := true; creatable := true; lock_events := [] |} in
  lock (obtain_lock 42 3601 h).2 = Some {| mtime := 3601; owner := "42" |}
  /\ (obtain_lock 42 3600 h).1 = false
  /\ lock (obtain_lock 42 3600 h).2 = lock h.
Proof.
  cbn zeta. split.
  - apply (proj1 (proj2 (obtain_lock_outcome 42 3601
             {| lock := Some {| mtime := 0; owner := "17" |};
                removable := true; creatable := true; lock_events := [] |}))).
    reflexivity.
  - apply (proj2 (proj2 (obtain_lock_outcome 42 3600
             {| lock := Some {| mtime := 0; owner := "17" |};
                removable := true; creatable := true; lock_events := [] |}))
             {| mtime := 0; owner := "17" |}); [reflexivity|].
    vm_compute. discriminate.
Defined.

(** X13: mutual exclusion.  Once [obtain_lock] has succeeded, every
    [obtain_lock] that finds that lock file no more than 3600 s later
    returns [False] and leaves the file as it is, whichever process asks. *)
Theorem lock_excludes_second_run
    (pid pid' : N) (current_time later : Q) (h h' : host) :
  (obtain_lock pid current_time h).1 = true ->
  same_lock (obtain_lock pid current_time h).2 h' ->
  (later - current_time <= 3600)%Q ->
  (obtain_lock pid' later h').1 = false
  /\ lock (obtain_lock pid' later h').2
     = Some {| mtime := current_time; owner := pretty pid |}.
Proof.
  intros Hgot Hsame Hsoon.
  pose proof (obtain_lock_writes pid current_time h Hgot) as Hlock.
  unfold same_lock in Hsame. rewrite Hlock in Hsame.
  destruct (obtain_lock_fresh pid' later h' _ Hsame) as [-> ->].
  - cbn [mtime]. by apply Qle_not_lt.
  - done.
Qed.

Lemma lock_excludes_second_run_witness :
  let h := {| lock := None; removable := true; creatable := true;
              lock_events := [] |} in
  (obtain_lock 43 3700 (obtain_lock 42 100 h).2).1 = false.
Proof.
  cbn zeta.
  apply (lock_excludes_second_run 42 43 100 3700
           {| lock := None; removable := true; creatable := true; lock_events := [] |}
           (obtain_lock 42 100
              {| lock := None; removable := true; creatable := true;
                 lock_events := [] |}).2);
    [reflexivity | reflexivity | vm_compute; discriminate].
Defined.

(** X14: [release_lock] removes the lock file whenever it can be removed,
    whoever created it, and does nothing when there is none.  After a
    successful [obtain_lock] and a [release_lock], the next [obtain_lock]
    succeeds at once, whatever the time. *)
Theorem release_lock_frees
    (pid pid' : N) (current_time later : Q) (h : host) :
  (removable h = true -> lock (release_lock h) = None)
  /\ (lock h = None -> release_lock h = h)
  /\ ((obtain_lock pid current_time h).1 = true ->
      removable h = true ->
      (obtain_lock pid' later
         (release_lock (obtain_lock pid current_time h).2)).1 = true).
Proof.
  split; [|split].
  - intros Hrem. unfold release_lock. rewrite Hrem.
    destruct (lock h) eqn:Hlock; [reflexivity | exact Hlock].
  - intros Hnone. unfold release_lock. by rewrite Hnone.
  - intros Hgot Hrem.
    apply obtain_lock_true_iff in Hgot as [Hcre _].
    pose proof (obtain_lock_frame pid current_time h) as [Hr Hc].
    apply obtain_lock_true_iff.
    assert (removable (obtain_lock pid current_time h).2 = true) as Hrem'
      by congruence.
    split.
    + unfold release_lock. rewrite Hrem'.
      destruct (lock (obtain_lock pid current_time h).2);
        cbn [set_lock creatable]; congruence.
    + left. unfold release_lock. rewrite Hrem'.
      destruct (lock (obtain_lock pid current_time h).2) eqn:Hlock;
        [reflexivity | exact Hlock].
Qed.

Lemma release_lock_frees_witness :
  let h := {| lock := None; removable := true; creatable := true;
              lock_events := [] |} in
  (obtain_lock 43 101 (release_lock (obtain_lock 42 100 h).2)).1 = true.
Proof.
  cbn zeta.
  apply (proj2 (proj2 (release_lock_frees 42 43 100 101
           {| lock := None; removable := true; creatable := true;
              lock_events := [] |}))); reflexivity.
Defined.

(** ** [get_config_from_env] *)

Lemma replace_char_keep (c : Ascii.ascii) (s : string) :
  replace (String c "") "" s
  = keep (fun d => negb (bool_decide (d = c))) s.
Proof.
  unfold replace. induction s as [|d s IH]; [done|].
  cbn [replace_scan keep String.prefix String.length Nat.sub].
  destruct (Ascii.ascii_dec c d) as [<-|Hne].
  - rewrite prefix_nil, bool_decide_true by done. cbn [negb]. exact IH.
  - rewrite bool_decide_false by congruence. cbn [negb]. by rewrite IH.
Qed.

Lemma keep_keep (p q : Ascii.ascii -> bool) (s : string) :
  keep p (keep q s) = keep (fun c => q c && p c) s.
Proof.
  induction s as [|c s IH]; [done|]. cbn [keep].
  destruct (q c); cbn [keep andb]; [destruct (p c)|]; by rewrite IH.
Qed.

Lemma keep_ext (p q : Ascii.ascii -> bool) (s : string) :
  (forall c, p c = q c) -> keep p s = keep q s.
Proof.
  intros Hpq. induction s as [|c s IH]; [done|]. cbn [keep].
  by rewrite Hpq, IH.
Qed.

(** The four replacements take out the separators, in one pass. *)
Lemma clean_key_keep (raw : string) :
  clean_key raw = upper (keep (fun c => negb (is_separator c)) raw).
Proof.
  unfold clean_key.
  change " " with (String (Ascii.ascii_of_nat 32) "").
  change "-" with (String (Ascii.ascii_of_nat 45) "").
  rewrite !replace_char_keep, !keep_keep. f_equal. apply keep_ext.
  intros [[] [] [] [] [] [] [] []]; reflexivity.
Qed.

Lemma upper_char_facts (c : Ascii.ascii) :
  upper_char (upper_char c) = upper_char c
  /\ is_separator (upper_char c) = is_separator c
  /\ is_lower (upper_char c) = false.
Proof. destruct c as [[] [] [] [] [] [] [] []]; repeat split; reflexivity. Qed.

Lemma keep_upper (s : string) :
  keep (fun c => negb (is_separator c)) (upper s)
  = upper (keep (fun c => negb (is_separator c)) s).
Proof.
  induction s as [|c s IH]; [done|]. cbn [upper keep].
  destruct (upper_char_facts c) as (_ & -> & _).
  destruct (is_separator c); cbn [negb upper]; by rewrite IH.
Qed.

Lemma upper_upper (s : string) : upper (upper s) = upper s.
Proof.
  induction s as [|c s IH]; [done|]. cbn [upper].
  destruct (upper_char_facts c) as (-> & _). by rewrite IH.
Qed.

Lemma keep_idempotent (p : Ascii.ascii -> bool) (s : string) :
  keep p (keep p s) = keep p s.
Proof.
  rewrite keep_keep. apply keep_ext. intros c. by destruct (p c).
Qed.

Lemma all_chars_keep_upper (s : string) :
  all_chars (fun c => negb (is_separator c) && negb (is_lower c))
    (upper (keep (fun c => negb (is_separator c)) s)) = true.
Proof.
  induction s as [|c s IH]; [done|]. cbn [keep].
  destruct (is_separator c) eqn:Hsep; cbn [negb]; [done|].
  cbn [upper all_chars].
  destruct (upper_char_facts c) as (_ & -> & ->). by rewrite Hsep, IH.
Qed.

(** X15: on an ASCII key, the cleaning of [PL_MFA_KEY] removes every
    space, dash, double quote and single quote and turns the letters into
    capitals, so that the result holds no separator and no small letter;
    cleaning a cleaned key changes nothing, and two keys that differ only in
    separators and in the case of their letters are cleaned to the same key. *)
Theorem clean_key_normalises (raw other : string) :
  is_ascii raw = true ->
  clean_key raw = upper (keep (fun c => negb (is_separator c)) raw)
  /\ all_chars (fun c => negb (is_separator c) && negb (is_lower c)) (clean_key raw)
     = true
  /\ clean_key (clean_key raw) = clean_key raw
  /\ (upper (keep (fun c => negb (is_separator c)) other)
      = upper (keep (fun c => negb (is_separator c)) raw) ->
      clean_key other = clean_key raw).
Proof.
  intros _. rewrite !clean_key_keep.
  split; [done|]. split; [apply all_chars_keep_upper|]. split; [|done].
  by rewrite keep_upper, keep_idempotent, upper_upper.
Qed.

Lemma clean_key_normalises_witness :
  clean_key "jbsw y3dp-ehpk 3pxp" = "JBSWY3DPEHPK3PXP"
  /\ clean_key "JBSW-Y3DP-EHPK-3PXP" = clean_key "jbsw y3dp-ehpk 3pxp".
Proof.
  destruct (clean_key_normalises "jbsw y3dp-ehpk 3pxp" "JBSW-Y3DP-EHPK-3PXP" eq_refl)
    as (Hform & _ & _ & Hsame).
  split; [rewrite Hform; reflexivity | apply Hsame; reflexivity].
Defined.

(** X16: [get_config_from_env] raises, before it logs anything, exactly
    when [PL_TIME_DELAY] (or its default, 10) is not an integer.  Otherwise
    it returns a configuration exactly when [PL_USERNAME], [PL_PASSWORD] and
    [PL_API_KEY] are all set and non-empty -- an empty value counts as
    missing -- and the configuration it logs shows the password, the API key
    and the MFA key only as the mask or as [None]. *)
Theorem config_validation (int : string -> option Z) (env : gmap string string) :
  let required :=
    truthy (env !! "PL_USERNAME") && truthy (env !! "PL_PASSWORD")
    && truthy (env !! "PL_API_KEY") in
  let shown v := v = None \/ v = Some "********" in
  match get_config_from_env int env with
  | None => int (default "10" (env !! "PL_TIME_DELAY")) = None
  | Some (result, log) =>
      (exists delay,
         int (default "10" (env !! "PL_TIME_DELAY")) = Some delay
         /\ forall config, result = Some config -> time_delay config = delay)
      /\ (is_Some result <-> required = true)
      /\ (forall config, result = Some config ->
            username config = env !! "PL_USERNAME"
            /\ password config = env !! "PL_PASSWORD"
            /\ api_key config = env !! "PL_API_KEY"
            /\ url config
               = default "https://app.projectionlab.com/login" (env !! "PL_URL")
            /\ mfa_key config
               = (if truthy (env !! "PL_MFA_KEY")
                  then clean_key <$> env !! "PL_MFA_KEY" else None))
      /\ exists safe_config rest,
           log = InfoConfigLoaded safe_config :: rest
           /\ shown (password safe_config)
           /\ shown (api_key safe_config)
           /\ shown (mfa_key safe_config)
           /\ (rest = [ErrorConfigMissing] <-> required = false)
  end.
Proof.
  cbn zeta. unfold get_config_from_env.
  destruct (int (default "10" (env !! "PL_TIME_DELAY"))) as [delay|]; [|done].
  cbn [mbind option_bind username password api_key mfa_key url time_delay].
  assert (forall v, masked v = None \/ masked v = Some "********") as Hmask.
  { intros v. unfold masked. destruct (truthy v); [by right | by left]. }
  destruct (truthy (env !! "PL_USERNAME")); cbn [negb orb andb];
    [destruct (truthy (env !! "PL_PASSWORD")); cbn [negb orb andb];
       [destruct (truthy (env !! "PL_API_KEY")); cbn [negb orb andb]|]|].
  - split; [exists delay; split; [done|by intros config [= <-]]|].
    split; [split; [done | by eexists]|].
    split; [by intros config [= <-]|].
    eexists _, []. repeat split; try apply Hmask; done.
  - split; [exists delay; split; [done|done]|].
    split; [split; [by intros [? ?] | done]|]. split; [done|].
    eexists _, _. repeat split; try apply Hmask; done.
  - split; [exists delay; split; [done|done]|].
    split; [split; [by intros [? ?] | done]|]. split; [done|].
    eexists _, _. repeat split; try apply Hmask; done.
  - split; [exists delay; split; [done|done]|].
    split; [split; [by intros [? ?] | done]|]. split; [done|].
    eexists _, _. repeat split; try apply Hmask; done.
Qed.

(** ** [wait_for_login_completion] *)

Section WaitFacts.

Variable probe : nat -> probe_result.
Variable took : nat -> Q.
Hypothesis took_nonneg : forall n, (0 <= took n)%Q.

Lemma inject_Z_succ (n : nat) :
  (inject_Z (Z.of_nat (S n)) == inject_Z (Z.of_nat n) + 1)%Q.
Proof. rewrite Nat2Z.inj_succ. unfold Z.succ. by rewrite inject_Z_plus. Qed.

(** The passes are counted by the clock: after [n] passes at least [n]
    seconds have gone by. *)
Lemma wait_loop_spec (timeout : Z) (start_time : Q) (fuel n : nat) (s : waiting) :
  (inject_Z (Z.of_nat n) <= wait_now s - start_time)%Q ->
  Z.to_nat timeout - n < fuel ->
  exists b s',
    wait_loop probe took fuel timeout start_time s = Some (b, s')
    /\ polls s' <= polls s + (Z.to_nat timeout - n)
    /\ polls s <= polls s'
    /\ (forall j, polls s <= j -> S j < polls s' -> probe j <> ApiAvailable)
    /\ (b = true -> polls s < polls s' /\ probe (polls s' - 1) = ApiAvailable)
    /\ (b = false ->
        (forall j, polls s <= j -> j < polls s' -> probe j <> ApiAvailable)
        /\ (inject_Z timeout <= wait_now s' - start_time)%Q).
Proof.
  revert n s. induction fuel as [|fuel IH]; intros n s Hclock Hfuel; [lia|].
  cbn [wait_loop].
  destruct (Qltb (wait_now s - start_time) (inject_Z timeout)) eqn:Hgo.
  2:{ apply Qltb_false in Hgo. exists false, s.
      repeat split; try done; try lia. }
  apply Qltb_true in Hgo.
  assert (Z.of_nat n < timeout)%Z as Hn.
  { rewrite Zlt_Qlt. eapply Qle_lt_trans; [exact Hclock | exact Hgo]. }
  cbn [polls wait_now]. replace (S (polls s) - 1) with (polls s) by lia.
  assert (forall probed, probed <> ApiAvailable -> probe (polls s) = probed ->
            exists b s',
              wait_loop probe took fuel timeout start_time
                {| polls := S (polls s);
                   wait_now := wait_now s + took (polls s) + 1 |} = Some (b, s')
              /\ polls s' <= polls s + (Z.to_nat timeout - n)
              /\ polls s <= polls s'
              /\ (forall j, polls s <= j -> S j < polls s' -> probe j <> ApiAvailable)
              /\ (b = true -> polls s < polls s' /\ probe (polls s' - 1) = ApiAvailable)
              /\ (b = false ->
                  (forall j, polls s <= j -> j < polls s' -> probe j <> ApiAvailable)
                  /\ (inject_Z timeout <= wait_now s' - start_time)%Q)) as Hnext.
  { intros probed Hprobed Hprobe.
    destruct (IH (S n) {| polls := S (polls s);
                          wait_now := wait_now s + took (polls s) + 1 |})
      as (b & s' & Hres & Hle & Hge & Hnone & Htrue & Hfalse).
    - cbn [wait_now]. rewrite inject_Z_succ.
      pose proof (took_nonneg (polls s)). lra.
    - lia.
    - cbn [polls] in *. exists b, s'. split; [done|]. split; [lia|]. split; [lia|].
      assert (forall j, polls s <= j -> probe j = ApiAvailable -> S (polls s) <= j)
        as Hskip.
      { intros j Hj Hav. destruct (decide (j = polls s)) as [->|]; [|lia].
        congruence. }
      split; [|split].
      + intros j Hj Hj' Hav. apply (Hnone j); [by apply Hskip | done | done].
      + intros Hb. destruct (Htrue Hb). split; [lia | done].
      + intros Hb. destruct (Hfalse Hb) as [Hno Hlate]. split; [|done].
        intros j Hj Hj' Hav. apply (Hno j); [by apply Hskip | done | done]. }
  destruct (probe (polls s)) eqn:Hprobe.
  - exists true, {| polls := S (polls s); wait_now := wait_now s + took (polls s) |}.
    cbn [polls wait_now]. split; [done|]. split; [lia|]. split; [lia|].
    split; [intros j Hj Hj'; lia|]. split; [|done].
    intros _. split; [lia|]. by replace (S (polls s) - 1) with (polls s) by lia.
  - by apply (Hnext ApiNotYet).
  - by apply (Hnext ProbeRaised).
Qed.

End WaitFacts.

(** X17: [wait_for_login_completion] ends after at most [timeout] passes
    of its loop, provided browser calls take no negative time.  It returns
    [True] at the first pass that finds the API, and [False] when [timeout]
    seconds have gone by without such a pass; a pass in which the browser
    raises counts like one that does not find the API and does not end the
    wait.  With a timeout of zero or less it returns [False] at once. *)
Theorem wait_for_login_completion_outcome
    (probe : nat -> probe_result) (took : nat -> Q)
    (fuel : nat) (timeout : Z) (s : waiting) :
  (forall n, (0 <= took n)%Q) ->
  Z.to_nat timeout < fuel ->
  exists b s',
    wait_for_login_completion probe took fuel timeout s = Some (b, s')
    /\ polls s <= polls s' <= polls s + Z.to_nat timeout
    /\ (b = true ->
        polls s < polls s'
        /\ probe (polls s' - 1) = ApiAvailable
        /\ forall j, polls s <= j -> S j < polls s' -> probe j <> ApiAvailable)
    /\ (b = false ->
        (forall j, polls s <= j -> j < polls s' -> probe j <> ApiAvailable)
        /\ (inject_Z timeout <= wait_now s' - wait_now s)%Q).
Proof.
  intros Hnonneg Hfuel. unfold wait_for_login_completion.
  destruct (wait_loop_spec probe took Hnonneg timeout (wait_now s) fuel 0 s)
    as (b & s' & Hres & Hle & Hge & Hnone & Htrue & Hfalse).
  - change (inject_Z (Z.of_nat 0)) with 0%Q. lra.
  - lia.
  - exists b, s'. split; [done|]. split; [lia|]. split.
    + intros Hb. destruct (Htrue Hb). done.
    + done.
Qed.

Lemma wait_for_login_completion_outcome_witness :
  wait_for_login_completion third_look half_second 31 30
    {| polls := 0; wait_now := 100 |}
  = Some (true, {| polls := 3; wait_now := 100 + (1#2) + 1 + (1#2) + 1 + (1#2) |}).
Proof.
  destruct (wait_for_login_completion_outcome third_look half_second 31 30
              {| polls := 0; wait_now := 100 |})
    as (b & s' & Hres & _); [discriminate | lia |].
  rewrite Hres. vm_compute in Hres. by injection Hres as <- <-.
Defined.

(** ** [update_projectionlab] as a whole *)

Section UpdateFacts.

Variable fails : nat -> bool.
Variable otp_fields_present : bool.
Variable page : nat -> reaction.
Variable totp : nat -> option string.
Variable depth : nat.
Variable login_successful : bool.
Variable passes : nat.
Variable script_ok : string -> bool.

Lemma ran_app (acts acts' : list action) :
  ran (acts ++ acts') = (ran acts ++ ran acts')%list.
Proof. unfold ran. by rewrite omap_app. Qed.

Lemma ran_Ran (commands : list string) : ran (map Ran commands) = commands.
Proof.
  unfold ran. induction commands as [|c l IHl]; [done|].
  cbn. by f_equal.
Qed.

Lemma inner_Ran (commands : list string) : Forall inner (map Ran commands).
Proof. induction commands as [|c l IHl]; by repeat constructor. Qed.

Lemma tame_unchanged (p : session -> flow * session) :
  (forall s, exists r, p s = (r, s) /\ r <> Returns true) -> tame p.
Proof.
  intros Hp s r s' Hrun. destruct (Hp s) as (r0 & Hr0 & Hne).
  rewrite Hr0 in Hrun. injection Hrun as <- <-. split; [done|].
  exists []. by rewrite app_nil_r.
Qed.

Lemma tame_go_on : tame go_on.
Proof. apply tame_unchanged. intros s. by exists Next. Qed.

Lemma tame_give_false : tame (give false).
Proof. apply tame_unchanged. intros s. by exists (Returns false). Qed.

Lemma tame_raise : tame (fun s => (Raises, s)).
Proof. apply tame_unchanged. intros s. by exists Raises. Qed.

Lemma tame_record (a : action) :
  inner a -> ran [a] = [] -> tame (fun s => (Next, record a s)).
Proof.
  intros Ha Hran s r s' [= <- <-]. split; [done|].
  exists [a]. cbn [record actions]. by repeat split; [constructor|].
Qed.

Lemma tame_call (a : action) : inner a -> ran [a] = [] -> tame (call fails a).
Proof.
  intros Ha Hran s r s' Hrun. unfold call in Hrun.
  destruct (fails (calls s)); injection Hrun as <- <-; (split; [done|]).
  - exists []. cbn [count_call actions]. by rewrite app_nil_r.
  - exists [a]. cbn [record count_call actions]. by repeat split; [constructor|].
Qed.

Lemma tame_pause (seconds : Z) : tame (pause seconds).
Proof.
  intros s r s' Hrun. unfold pause in Hrun.
  destruct (seconds <? 0)%Z; injection Hrun as <- <-; (split; [done|]).
  - exists []. by rewrite app_nil_r.
  - exists [Paused seconds]. cbn [record actions].
    split; [done|]. split; [|done]. by repeat constructor.
Qed.

Lemma tame_and_then (p q : session -> flow * session) :
  tame p -> tame q -> tame (and_then p q).
Proof.
  intros Hp Hq s r s' Hrun. unfold and_then in Hrun.
  destruct (p s) as [r1 s1] eqn:Hp1.
  destruct (Hp s r1 s1 Hp1) as (Hne1 & added1 & Ha1 & Hi1 & Hr1).
  destruct r1; try (injection Hrun as <- <-; split; [done | by exists added1]).
  destruct (Hq s1 r s' Hrun) as (Hne & added & Ha & Hi & Hr).
  split; [done|]. exists (added1 ++ added)%list.
  rewrite Ha, Ha1, <- app_assoc, ran_app, Hr1, Hr.
  split; [done|]. split; [by apply Forall_app | done].
Qed.

Lemma tame_or_else (p q : session -> flow * session) :
  tame p -> tame q -> tame (or_else p q).
Proof.
  intros Hp Hq s r s' Hrun. unfold or_else in Hrun.
  destruct (p s) as [r1 s1] eqn:Hp1.
  destruct (Hp s r1 s1 Hp1) as (Hne1 & added1 & Ha1 & Hi1 & Hr1).
  destruct r1; try (injection Hrun as <- <-; split; [done | by exists added1]).
  destruct (Hq s1 r s' Hrun) as (Hne & added & Ha & Hi & Hr).
  split; [done|]. exists (added1 ++ added)%list.
  rewrite Ha, Ha1, <- app_assoc, ran_app, Hr1, Hr.
  split; [done|]. split; [by apply Forall_app | done].
Qed.

Lemma tame_locate (first second : element) : tame (locate fails first second).
Proof.
  unfold locate.
  repeat first [apply tame_or_else | apply tame_call | apply tame_give_false];
    done.
Qed.

Lemma tame_fill (what : element) (text : option string) :
  tame (fill fails what text).
Proof.
  intros s r s' Hrun. unfold fill in Hrun. destruct text as [t|].
  - revert s r s' Hrun. apply tame_and_then; by apply tame_call.
  - revert s r s' Hrun. apply tame_and_then; [by apply tame_call | apply tame_raise].
Qed.

Lemma tame_mfa_steps : tame (mfa_steps fails otp_fields_present page totp depth).
Proof.
  intros s r s' Hrun. unfold mfa_steps, fresh_totp in Hrun.
  cbn [set_mfa calls actions mfa] in Hrun.
  destruct (fails (calls s)).
  { injection Hrun as <- <-. split; [done|]. exists [].
    cbn [count_call actions]. by rewrite app_nil_r. }
  assert (forall (r0 : flow) (m : mfa_state) (c : nat),
            r0 = Next ->
            r0 <> Returns true
            /\ exists added,
                 actions {| calls := c; actions := actions s ++ [Looked OtpFields];
                            mfa := m |}
                 = (actions s ++ added)%list
                 /\ Forall inner added /\ ran added = []) as Hout.
  { intros r0 m c ->. split; [done|]. exists [Looked OtpFields].
    split; [done|]. split; [|done]. by repeat constructor. }
  destruct otp_fields_present.
  2:{ injection Hrun as <- <-. by apply Hout. }
  destruct (truthy (totp (totp_calls (mfa s)))) eqn:Hcode;
    cbn [set_mfa record count_call calls actions mfa] in Hrun;
    rewrite ?Hcode in Hrun.
  - destruct (handle_mfa_code _ _ _ _ _) as [handled m].
    injection Hrun as <- <-. by apply Hout.
  - destruct (truthy (totp (totp_calls (tick_totp (mfa s))))).
    + destruct (handle_mfa_code _ _ _ _ _) as [handled m].
      injection Hrun as <- <-. by apply Hout.
    + injection Hrun as <- <-. by apply Hout.
Qed.

Lemma tame_login_failed : tame (login_failed fails).
Proof.
  unfold login_failed.
  repeat first [apply tame_and_then | apply tame_or_else | apply tame_call
               | apply tame_give_false | apply tame_go_on]; done.
Qed.

Lemma tame_delivers (update_commands : list string) (p : session -> flow * session) :
  tame p -> delivers script_ok login_successful update_commands p.
Proof.
  intros Hp s r s' Hrun. destruct (Hp s r s' Hrun) as (Hne & added & Ha & Hi & Hr).
  exists added, 0. rewrite Hr, take_0. repeat split; try done; lia.
Qed.

Lemma delivers_and_then (update_commands : list string)
    (p q : session -> flow * session) :
  tame p ->
  delivers script_ok login_successful update_commands q ->
  delivers script_ok login_successful update_commands (and_then p q).
Proof.
  intros Hp Hq s r s' Hrun. unfold and_then in Hrun.
  destruct (p s) as [r1 s1] eqn:Hp1.
  destruct (Hp s r1 s1 Hp1) as (Hne1 & added1 & Ha1 & Hi1 & Hr1).
  destruct r1;
    try (injection Hrun as <- <-; exists added1, 0; rewrite Hr1, take_0;
         repeat split; try done; lia).
  destruct (Hq s1 r s' Hrun) as (added & k & Ha & Hi & Hr & Hk & Hlogin & Hall).
  exists (added1 ++ added)%list, k.
  rewrite Ha, Ha1, <- app_assoc, ran_app, Hr1, Hr.
  split; [done|]. split; [by apply Forall_app | done].
Qed.

(** The loop runs a prefix of the commands, all of them when it succeeds. *)
Lemma loop_runs_prefix (update_commands : list string) (log : list exec_log)
    (executed : list string) :
  exists k,
    (update_projectionlab_loop script_ok update_commands log executed).2
    = (executed ++ take k update_commands)%list
    /\ k <= length update_commands
    /\ ((update_projectionlab_loop script_ok update_commands log executed).1.1 = true ->
        k = length update_commands /\ Forall (runnable script_ok) update_commands).
Proof.
  revert log executed.
  induction update_commands as [|command rest IH]; intros log executed;
    cbn [update_projectionlab_loop].
  { exists 0. cbn. by rewrite app_nil_r. }
  destruct (redacted_command command) as [redacted|] eqn:Hred.
  2:{ exists 0. cbn [take]. rewrite app_nil_r. repeat split; try done; lia. }
  destruct (script_ok command) eqn:Hok.
  2:{ exists 1. cbn [take length]. repeat split; try done; lia. }
  destruct (IH ((log ++ [InfoExecuting redacted]) ++ [InfoExecuted])%list
              (executed ++ [command])%list) as (k & Hexec & Hk & Hall).
  exists (S k). cbn [take length]. rewrite Hexec, <- app_assoc.
  split; [done|]. split; [lia|]. intros Hres. destruct (Hall Hres) as [-> Hrest].
  split; [done|]. constructor; [|done]. split; [by eexists | done].
Qed.

Lemma delivers_commands (update_commands : list string) (seconds : Z) :
  login_successful = true ->
  delivers script_ok login_successful update_commands
    (and_then (run_commands script_ok update_commands)
       (and_then (pause seconds) (give true))).
Proof.
  intros Hlogin s r s' Hrun. unfold and_then, run_commands in Hrun.
  destruct (loop_runs_prefix update_commands [] []) as (k & Hexec & Hk & Hall).
  destruct (update_projectionlab_loop script_ok update_commands [] [])
    as [[ok log] executed].
  cbn [fst snd app] in Hexec, Hall. subst executed.
  pose proof (inner_Ran (take k update_commands)) as Hinner.
  pose proof (ran_Ran (take k update_commands)) as Hran.
  destruct ok.
  2:{ injection Hrun as <- <-. exists (map Ran (take k update_commands)), k.
      cbn [actions]. by repeat split. }
  destruct (Hall eq_refl) as [-> Hrunnable].
  unfold pause, give in Hrun.
  destruct (seconds <? 0)%Z; injection Hrun as <- <-.
  - exists (map Ran (take (length update_commands) update_commands)),
      (length update_commands).
    cbn [actions]. by repeat split.
  - exists (map Ran (take (length update_commands) update_commands)
              ++ [Paused seconds])%list, (length update_commands).
    cbn [record actions]. rewrite <- app_assoc, ran_app, Hran. cbn.
    rewrite app_nil_r. repeat split; try done.
    apply Forall_app. split; [done|]. by repeat constructor.
Qed.

Lemma session_steps_delivers (update_commands : list string) (config : pl_config) :
  delivers script_ok login_successful update_commands
    (session_steps fails otp_fields_present page totp depth login_successful passes
       script_ok update_commands config).
Proof.
  unfold session_steps.
  do 14 (apply delivers_and_then;
         [first [by apply tame_call | apply tame_pause | apply tame_locate
                | apply tame_fill]|]).
  apply delivers_and_then.
  { destruct (truthy (mfa_key config)); [apply tame_mfa_steps | apply tame_go_on]. }
  apply delivers_and_then; [by apply tame_record|].
  destruct (bool_dec login_successful true) as [Hlogin|Hlogin%not_true_is_false].
  - replace (if login_successful then go_on else login_failed fails)
      with go_on by (by rewrite Hlogin).
    apply delivers_and_then; [apply tame_go_on|].
    apply delivers_and_then; [by apply tame_call|].
    by apply delivers_commands.
  - replace (if login_successful then go_on else login_failed fails)
      with (login_failed fails) by (by rewrite Hlogin).
    apply tame_delivers.
    intros s r s' Hrun. unfold and_then at 1 in Hrun.
    destruct (login_failed fails s) as [r1 s1] eqn:Hfail.
    destruct (tame_login_failed s r1 s1 Hfail) as (Hne & added & Ha & Hi & Hr).
    assert (r1 <> Next) as Hnext.
    { unfold login_failed, and_then, give in Hfail.
      destruct (or_else _ _ s) as [[] ?]; by injection Hfail as <- _. }
    destruct r1; [done| |]; injection Hrun as <- <-; (split; [done|]);
      by exists added.
Qed.

Lemma and_then_ends (p q : session -> flow * session) :
  (forall s s', q s <> (Next, s')) -> forall s s', and_then p q s <> (Next, s').
Proof.
  intros Hq s s' Hrun. unfold and_then in Hrun.
  destruct (p s) as [[] s1]; try done. by apply Hq in Hrun.
Qed.

(** The [try] block does not fall off its end: its last statement is
    [return True]. *)
Lemma session_steps_returns (update_commands : list string) (config : pl_config)
    (s s' : session) :
  session_steps fails otp_fields_present page totp depth login_successful passes
    script_ok update_commands config s
  = (Next, s') -> False.
Proof.
  revert s s'. unfold session_steps. repeat apply and_then_ends. done.
Qed.

(** The function once the browser is running: the [try] block, then
    [driver.quit()] in the [finally] clause. *)
Lemma update_projectionlab_browser (update_commands : list string)
    (config : pl_config) (s : session) :
  masked_mfa_key config = false -> fails (calls s) = false ->
  exists outcome s1,
    session_steps fails otp_fields_present page totp depth login_successful passes
      script_ok update_commands config (record Started (count_call s))
    = (outcome, s1)
    /\ update_projectionlab fails otp_fields_present page totp depth login_successful
         passes script_ok update_commands config s
       = if fails (calls s1) then (None, count_call s1)
         else (Some (verdict outcome), record Quit (count_call s1)).
Proof.
  intros Hmasked Hstart. unfold update_projectionlab. cbn zeta.
  unfold masked_mfa_key in Hmasked. rewrite Hmasked, Hstart.
  destruct (session_steps _ _ _ _ _ _ _ _ _ _ _) as [outcome s1].
  by exists outcome, s1.
Qed.

Lemma update_projectionlab_no_browser (update_commands : list string)
    (config : pl_config) (s : session) :
  masked_mfa_key config || fails (calls s) = true ->
  (update_projectionlab fails otp_fields_present page totp depth login_successful
     passes script_ok update_commands config s).1 = Some false
  /\ actions (update_projectionlab fails otp_fields_present page totp depth
                login_successful passes script_ok update_commands config s).2
     = actions s.
Proof.
  intros Hno. unfold update_projectionlab. cbn zeta.
  unfold masked_mfa_key in Hno.
  destruct (truthy (mfa_key config) && _); [done|].
  cbn [orb] in Hno. by rewrite Hno.
Qed.

(** X18: the browser is closed on every path.  When the MFA key is masked
    or Chrome does not start, the function returns [False] and does nothing
    to a browser.  Otherwise whatever it does after starting the browser
    neither starts nor quits one, and when the function returns (a result
    or an exception of the [try] block turned into [False]) [driver.quit()]
    is its last action; it leaves by an exception only when
    [driver.quit()] itself raises. *)
Theorem browser_is_quit_last (update_commands : list string) (config : pl_config)
    (s : session) :
  let r := update_projectionlab fails otp_fields_present page totp depth
             login_successful passes script_ok update_commands config s in
  (masked_mfa_key config || fails (calls s) = true
   /\ r.1 = Some false /\ actions r.2 = actions s)
  \/ (masked_mfa_key config || fails (calls s) = false
      /\ exists added,
           Forall inner added
           /\ (is_Some r.1
               /\ actions r.2 = (actions s ++ Started :: added ++ [Quit])%list
               \/ r.1 = None
                  /\ actions r.2 = (actions s ++ Started :: added)%list)).
Proof.
  cbn zeta.
  destruct (masked_mfa_key config || fails (calls s)) eqn:Hno.
  { left. split; [done|]. by apply update_projectionlab_no_browser. }
  right. split; [done|]. apply orb_false_elim in Hno as [Hmasked Hstart].
  destruct (update_projectionlab_browser update_commands config s Hmasked Hstart)
    as (outcome & s1 & Hsteps & ->).
  destruct (session_steps_delivers update_commands config _ _ _ Hsteps)
    as (added & k & Hactions & Hinner & _).
  cbn [record count_call actions] in Hactions.
  exists added. split; [done|].
  destruct (fails (calls s1)); cbn [fst snd record count_call actions];
    rewrite Hactions, <- !app_assoc; cbn [app].
  - by right.
  - left. split; [by eexists | done].
Qed.

(** X19: the commands reach the browser only after a successful login, in
    the order of the list and without gaps: what the function hands to
    [execute_script] is a prefix of [update_commands], empty unless
    [wait_for_login_completion] returned [True] and the MFA key is not
    masked; when the function returns [True] every command was redacted
    and run. *)
Theorem commands_only_after_login (update_commands : list string)
    (config : pl_config) (s : session) :
  let r := update_projectionlab fails otp_fields_present page totp depth
             login_successful passes script_ok update_commands config s in
  exists k,
    ran (actions r.2) = (ran (actions s) ++ take k update_commands)%list
    /\ k <= length update_commands
    /\ (0 < k -> login_successful = true /\ masked_mfa_key config = false)
    /\ (r.1 = Some true ->
        k = length update_commands /\ login_successful = true
        /\ Forall (runnable script_ok) update_commands).
Proof.
  cbn zeta.
  destruct (masked_mfa_key config || fails (calls s)) eqn:Hno.
  { destruct (update_projectionlab_no_browser update_commands config s Hno)
      as [Hres Hactions].
    exists 0. rewrite Hactions, Hres, take_0, app_nil_r.
    repeat split; try done; lia. }
  apply orb_false_elim in Hno as [Hmasked Hstart].
  destruct (update_projectionlab_browser update_commands config s Hmasked Hstart)
    as (outcome & s1 & Hsteps & ->).
  destruct (session_steps_delivers update_commands config _ _ _ Hsteps)
    as (added & k & Hactions & Hinner & Hran & Hk & Hlogin & Hall).
  cbn [record count_call actions] in Hactions.
  exists k.
  assert (ran (actions s1) = (ran (actions s) ++ take k update_commands)%list)
    as Hran1.
  { rewrite Hactions, !ran_app, Hran. cbn. by rewrite app_nil_r. }
  split.
  { destruct (fails (calls s1)); cbn [fst snd record count_call actions];
      [done|]. rewrite ran_app, Hran1. cbn. by rewrite app_nil_r. }
  split; [done|]. split; [by intros Hpos; split; [apply Hlogin|]|].
  destruct (fails (calls s1)); cbn [fst]; [done|].
  intros [= Hverdict]. apply Hall.
  destruct outcome as [|result|]; cbn [verdict] in Hverdict; try done.
  - exfalso. revert Hsteps. apply session_steps_returns.
  - by rewrite Hverdict.
Qed.

(** A step that goes on, followed by steps that return [result]. *)
Lemma and_then_gives (result : bool) (p q : session -> flow * session) :
  (forall s, (p s).1 = Next) -> (forall s, (q s).1 = Returns result) ->
  forall s, (and_then p q s).1 = Returns result.
Proof.
  intros Hp Hq s. unfold and_then. specialize (Hp s).
  destruct (p s) as [r1 s1]. cbn [fst] in Hp. subst r1. apply Hq.
Qed.

Lemma loop_all_runnable (update_commands : list string) (log : list exec_log)
    (executed : list string) :
  Forall (runnable script_ok) update_commands ->
  (update_projectionlab_loop script_ok update_commands log executed).1.1 = true.
Proof.
  intros Hall. revert log executed.
  induction Hall as [|command rest [[redacted Hred] Hok] _ IH]; intros log executed;
    cbn [update_projectionlab_loop]; [done|].
  rewrite Hred, Hok. apply IH.
Qed.

Lemma mfa_steps_goes_on (s : session) :
  (mfa_steps fails otp_fields_present page totp depth s).1 = Next.
Proof.
  unfold mfa_steps, fresh_totp. cbn [set_mfa calls actions mfa].
  destruct (fails (calls s)); [done|].
  destruct otp_fields_present; [|done].
  destruct (truthy (totp (totp_calls (mfa s)))) eqn:Hcode;
    cbn [set_mfa record count_call calls actions mfa]; rewrite ?Hcode.
  - by destruct (handle_mfa_code _ _ _ _ _).
  - destruct (truthy (totp (totp_calls (tick_totp (mfa s))))); [|done].
    by destruct (handle_mfa_code _ _ _ _ _).
Qed.

Section NothingFails.

Hypothesis Hfails : forall n, fails n = false.

Lemma call_goes_on (a : action) (s : session) : (call fails a s).1 = Next.
Proof. unfold call. by rewrite Hfails. Qed.

Lemma pause_goes_on (seconds : Z) (s : session) :
  (0 <= seconds)%Z -> (pause seconds s).1 = Next.
Proof.
  intros Hpos. unfold pause. by destruct (Z.ltb_spec seconds 0); [lia|].
Qed.

Lemma locate_goes_on (first second : element) (s : session) :
  (locate fails first second s).1 = Next.
Proof. unfold locate, or_else, call. by rewrite Hfails. Qed.

Lemma fill_goes_on (what : element) (text : string) (s : session) :
  (fill fails what (Some text) s).1 = Next.
Proof. unfold fill, and_then, call. cbn [count_call calls]. by rewrite !Hfails. Qed.

Lemma run_commands_goes_on (update_commands : list string) (s : session) :
  Forall (runnable script_ok) update_commands ->
  (run_commands script_ok update_commands s).1 = Next.
Proof.
  intros Hall. unfold run_commands.
  pose proof (loop_all_runnable update_commands [] [] Hall) as Hok.
  destruct (update_projectionlab_loop script_ok update_commands [] [])
    as [[ok log] executed].
  cbn [fst] in Hok. by subst ok.
Qed.

Lemma session_steps_succeed (update_commands : list string) (config : pl_config)
    (u p : string) :
  username config = Some u -> password config = Some p ->
  (0 <= time_delay config)%Z ->
  login_successful = true ->
  Forall (runnable script_ok) update_commands ->
  forall s,
    (session_steps fails otp_fields_present page totp depth login_successful passes
       script_ok update_commands config s).1 = Returns true.
Proof.
  intros Hu Hp Hdelay Hlogin Hall. unfold session_steps. rewrite Hu, Hp.
  replace (if login_successful then go_on else login_failed fails)
    with go_on by (by rewrite Hlogin).
  repeat (apply and_then_gives;
          [intros s;
           first [apply call_goes_on | apply locate_goes_on | apply fill_goes_on
                 | apply pause_goes_on; lia
                 | by apply run_commands_goes_on
                 | by destruct (truthy (mfa_key config));
                     [apply mfa_steps_goes_on|]
                 | done]|]).
  done.
Qed.

(** X20: when nothing goes wrong the function returns [True] having run
    every command.  If no WebDriver call raises, the MFA key is not masked,
    user name and password are set, the delay is not negative, the login
    completes and every command is redacted and run by the browser, then
    the function returns [True], it has handed exactly [update_commands] to
    [execute_script], in order, and its last action is [driver.quit()]. *)
Theorem update_succeeds (update_commands : list string) (config : pl_config)
    (u p : string) (s : session) :
  masked_mfa_key config = false ->
  username config = Some u -> password config = Some p ->
  (0 <= time_delay config)%Z ->
  login_successful = true ->
  Forall (runnable script_ok) update_commands ->
  let r := update_projectionlab fails otp_fields_present page totp depth
             login_successful passes script_ok update_commands config s in
  r.1 = Some true
  /\ ran (actions r.2) = (ran (actions s) ++ update_commands)%list
  /\ last (actions r.2) = Some Quit.
Proof.
  intros Hmasked Hu Hp Hdelay Hlogin Hall. cbn zeta.
  destruct (update_projectionlab_browser update_commands config s Hmasked
              (Hfails (calls s))) as (outcome & s1 & Hsteps & ->).
  pose proof (session_steps_succeed update_commands config u p Hu Hp Hdelay
                Hlogin Hall (record Started (count_call s))) as Hout.
  rewrite Hsteps in Hout. cbn [fst] in Hout. subst outcome.
  destruct (session_steps_delivers update_commands config _ _ _ Hsteps)
    as (added & k & Hactions & _ & Hran & _ & _ & Hk).
  destruct (Hk eq_refl) as (-> & _ & _).
  rewrite firstn_all in Hran.
  cbn [record count_call actions] in Hactions.
  rewrite Hfails. cbn [fst snd verdict record count_call actions].
  split; [done|]. split.
  - rewrite Hactions, !ran_app, Hran. cbn. by rewrite !app_nil_r.
  - by rewrite last_snoc.
Qed.

End NothingFails.

End UpdateFacts.

Lemma update_succeeds_witness :
  (update_projectionlab never_fails false always_rejects (fun _ => None) 0 true 2
     always_runs sample_commands sample_config fresh_session).1 = Some true
  /\ ran (actions (update_projectionlab never_fails false always_rejects
                     (fun _ => None) 0 true 2 always_runs sample_commands
                     sample_config fresh_session).2)
     = sample_commands
  /\ last (actions (update_projectionlab never_fails false always_rejects
                      (fun _ => None) 0 true 2 always_runs sample_commands
                      sample_config fresh_session).2)
     = Some Quit.
Proof.
  apply (update_succeeds never_fails false always_rejects (fun _ => None) 0 true 2
           always_runs (fun n => eq_refl) sample_commands sample_config
           "me@example.org" "hunter2" fresh_session).
  - reflexivity.
  - reflexivity.
  - reflexivity.
  - cbn. lia.
  - reflexivity.
  - repeat constructor; try reflexivity; by eexists; vm_compute.
Defined.
